(** * Grid scrape orchestration of the Manhattan restaurants scraper

    A shallow embedding of [src/scrape/scrape_restaurants.py]: grid
    generation against the boundary polygon, the two on-disk caches, the
    paginated cell search, the detail fetch, and the merge and enrichment
    phases, followed by the properties stated about them.

    Conventions of the embedding:
    - Python floats holding degrees are exact rationals ([Q]); the search
      radius, which needs [cos] and [sqrt], is computed over [R].
    - A Python dict with string keys is a [gmap string json]; [None] is
      [JNull] inside JSON data and [option] at function results.
    - [hasattr(x, 'f')] on a provider object is an [option]-valued field.
    - Coroutines run to completion one after another in the order in
      which they complete; the disk and the provider calls are threaded
      through a state monad. *)

From Stdlib Require Import ZArith QArith String List Reals Qreals Psatz Permutation Sorted.
From stdpp Require Import gmap strings list fin_maps pretty sorting.

Local Open Scope string_scope.

(** ** JSON values, as [json.load] produces them *)

#[warnings="-register-all"]
Inductive json : Type :=
  | JNull
  | JBool (b : bool)
  | JInt (n : Z)
  | JFloat (x : Q)
  | JStr (s : string)
  | JArr (l : list json)
  | JObj (m : gmap string json).

(** Python truth value of a JSON value. *)
Definition truthy (v : json) : bool :=
  match v with
  | JNull => false
  | JBool b => b
  | JInt n => negb (n =? 0)%Z
  | JFloat x => negb (Qeq_bool x 0)
  | JStr s => negb (String.eqb s "")
  | JArr l => negb (Nat.eqb (length l) 0)
  | JObj m => negb (Nat.eqb (size m) 0)
  end.
Arguments truthy : simpl never.

(** [d.get(k)]: the value, or [None]. *)
Definition dict_get (k : string) (d : gmap string json) : json :=
  default JNull (d !! k).

(** [d.update(e)]: the keys of [e] overwrite those of [d]. *)
Definition dict_update (d e : gmap string json) : gmap string json := e ∪ d.

(** [v == True] for a JSON value [v]: Python compares [1] and [1.0] equal
    to [True]. *)
Definition eq_True (v : json) : bool :=
  match v with
  | JBool b => b
  | JInt n => (n =? 1)%Z
  | JFloat x => Qeq_bool x 1
  | _ => false
  end.

(** [needle in hay] on strings. *)
Fixpoint str_prefix (p s : string) : bool :=
  match p, s with
  | EmptyString, _ => true
  | String a p', String b s' => Ascii.eqb a b && str_prefix p' s'
  | String _ _, EmptyString => false
  end.

Fixpoint str_contains (needle hay : string) : bool :=
  str_prefix needle hay ||
  match hay with
  | EmptyString => false
  | String _ hay' => str_contains needle hay'
  end.

(** ** Runtime services the source calls but does not define *)

Class Runtime := {
  (** [f"{x}"] for a float. *)
  float_repr : Q -> string;
  (** [datetime.fromtimestamp(seconds + nanos / 1e9).isoformat()], or
      [None] when it raises. *)
  timestamp_isoformat : Z -> Z -> option string;
  (** [str(t)] for a protobuf timestamp. *)
  timestamp_str : Z -> Z -> string
}.

(** An executable instance, used to run the model on concrete inputs. *)
Definition decimal_runtime : Runtime := {|
  float_repr q := pretty (Qnum (Qred q)) ++ "/" ++ pretty (Zpos (Qden (Qred q)));
  timestamp_isoformat s n := Some (pretty s ++ "." ++ pretty n);
  timestamp_str s n := "seconds: " ++ pretty s ++ " nanos: " ++ pretty n
|}.

(** ** Configuration *)

Definition GRID_SIZE : nat := 250.
Definition SLEEP_TIME : Q := 30.
Definition MAX_REVIEWS : nat := 10.
Definition DETAILS_DELAY : Q := 1 # 10.
Definition CACHE_GRID_DIR : string := "cache/grid".
Definition CACHE_DETAILS_DIR : string := "cache/details".

Record Bounds := {
  b_lat_low : Q;
  b_lat_high : Q;
  b_lon_low : Q;
  b_lon_high : Q
}.

Definition MANHATTAN_BOUNDS : Bounds := {|
  b_lat_low := 407 # 10;
  b_lat_high := 4088 # 100;
  b_lon_low := - (7405 # 100);
  b_lon_high := - (739 # 10)
|}.

Record GridCell := {
  lat_low : Q;
  lon_low : Q;
  lat_high : Q;
  lon_high : Q
}.

Definition cache_filename `{Runtime} (cell : GridCell) : string :=
  float_repr (lat_low cell) ++ "_" ++ float_repr (lon_low cell) ++ "_" ++
  float_repr (lat_high cell) ++ "_" ++ float_repr (lon_high cell) ++ ".json".

(** ** Planar geometry: the part of shapely the source uses

    A point is [(x, y) = (lon, lat)]; a polygon is given by the
    coordinates of its exterior ring, as passed to [Polygon(...)]. *)

Definition point : Type := Q * Q.
Definition ring : Type := list point.

Class Shapely := {
  (** [polygon.contains(point)]: the point lies in the interior. *)
  contains : ring -> point -> bool;
  (** [polygon.touches(point)]: the point lies on the boundary. *)
  touches : ring -> point -> bool;
  (** [a.intersects(b)]: the two polygons share at least one point. *)
  intersects : ring -> ring -> bool
}.

Section Grid.
Context `{Shapely}.

(** The boundary polygon is the module global [MANHATTAN_POLYGON] in the
    source; here it is an argument. *)
Variable polygon : ring.

Definition point_in_manhattan (lat lon : Q) : bool :=
  contains polygon (lon, lat) || touches polygon (lon, lat).

Definition cell_corners (cell : GridCell) : list (Q * Q) :=
  [ (lat_low cell, lon_low cell);
    (lat_low cell, lon_high cell);
    (lat_high cell, lon_low cell);
    (lat_high cell, lon_high cell) ].

Definition cell_polygon (cell : GridCell) : ring :=
  [ (lon_low cell, lat_low cell);
    (lon_high cell, lat_low cell);
    (lon_high cell, lat_high cell);
    (lon_low cell, lat_high cell);
    (lon_low cell, lat_low cell) ].

Definition cell_center (cell : GridCell) : Q * Q :=
  ((lat_low cell + lat_high cell) / 2, (lon_low cell + lon_high cell) / 2)%Q.

Definition cell_overlaps_manhattan (cell : GridCell) : bool :=
  let '(center_lat, center_lon) := cell_center cell in
  if point_in_manhattan center_lat center_lon then true
  else if existsb (fun '(lat, lon) => point_in_manhattan lat lon) (cell_corners cell)
  then true
  else intersects (cell_polygon cell) polygon.

(** The cell built in the body of the two nested loops. *)
Definition grid_cell (bounds : Bounds) (lat_step lon_step : Q) (i j : nat) : GridCell :=
  {| lat_low := b_lat_low bounds + inject_Z (Z.of_nat i) * lat_step;
     lon_low := b_lon_low bounds + inject_Z (Z.of_nat j) * lon_step;
     lat_high := b_lat_low bounds + inject_Z (Z.of_nat (i + 1)) * lat_step;
     lon_high := b_lon_low bounds + inject_Z (Z.of_nat (j + 1)) * lon_step |}%Q.

(** All [grid_size * grid_size] cells of the lattice, rows outermost. *)
Definition lattice (bounds : Bounds) (grid_size : nat) : list GridCell :=
  let lat_step := ((b_lat_high bounds - b_lat_low bounds) / inject_Z (Z.of_nat grid_size))%Q in
  let lon_step := ((b_lon_high bounds - b_lon_low bounds) / inject_Z (Z.of_nat grid_size))%Q in
  flat_map (fun i => map (grid_cell bounds lat_step lon_step i) (seq 0 grid_size))
           (seq 0 grid_size).

(** [generate_grid_cells], with the globals [MANHATTAN_BOUNDS] and
    [GRID_SIZE] as arguments. Dividing by a grid size of zero raises
    [ZeroDivisionError]: the result is [None]. *)
Definition generate_grid_cells (bounds : Bounds) (grid_size : nat) : option (list GridCell) :=
  match grid_size with
  | O => None
  | _ => Some (List.filter cell_overlaps_manhattan (lattice bounds grid_size))
  end.
End Grid.

(** ** An executable model of the three shapely predicates

    For simple polygons with rational vertices: boundary membership by
    collinearity, interior membership by counting the edges a rightward
    ray crosses, intersection by edge crossings or containment of a
    vertex. *)

Module Planar.
Definition Qltb (x y : Q) : bool := negb (Qle_bool y x).

(** Twice the signed area of the triangle [a b p]: positive when [p]
    is to the left of the directed line from [a] to [b]. *)
Definition cross (a b p : point) : Q :=
  ((fst b - fst a) * (snd p - snd a) - (snd b - snd a) * (fst p - fst a))%Q.

Definition between (u v w : Q) : bool :=
  (Qle_bool u v && Qle_bool v w) || (Qle_bool w v && Qle_bool v u).

Definition on_segment (p : point) (e : point * point) : bool :=
  let '(a, b) := e in
  Qeq_bool (cross a b p) 0 &&
  between (fst a) (fst p) (fst b) && between (snd a) (snd p) (snd b).

(** Consecutive vertices, the last one joined to the first. *)
Definition edges (r : ring) : list (point * point) :=
  match r with
  | [] => []
  | p :: tl => combine r (tl ++ [p])
  end.

Definition on_boundary (r : ring) (p : point) : bool :=
  existsb (on_segment p) (edges r).

(** The edge crosses the horizontal ray leaving [p] to the right. *)
Definition crosses_ray (p : point) (e : point * point) : bool :=
  let '(a, b) := e in
  if Qle_bool (snd a) (snd p) && Qltb (snd p) (snd b) then Qltb 0 (cross a b p)
  else if Qle_bool (snd b) (snd p) && Qltb (snd p) (snd a) then Qltb (cross a b p) 0
  else false.

Definition interior (r : ring) (p : point) : bool :=
  negb (on_boundary r p) &&
  Nat.odd (length (List.filter (crosses_ray p) (edges r))).

Definition in_closed (r : ring) (p : point) : bool :=
  on_boundary r p || interior r p.

Definition side (a b p : point) : comparison := Qcompare (cross a b p) 0.

Definition comparison_eqb (c d : comparison) : bool :=
  match c, d with
  | Eq, Eq | Lt, Lt | Gt, Gt => true
  | _, _ => false
  end.

Definition segments_meet (e f : point * point) : bool :=
  let '(a, b) := e in
  let '(c, d) := f in
  (negb (comparison_eqb (side a b c) (side a b d)) &&
   negb (comparison_eqb (side c d a) (side c d b)))
  || on_segment c e || on_segment d e || on_segment a f || on_segment b f.

Definition rings_intersect (r s : ring) : bool :=
  existsb (fun e => existsb (segments_meet e) (edges s)) (edges r)
  || existsb (in_closed s) r
  || existsb (in_closed r) s.

Definition shapely : Shapely := {|
  contains := interior;
  touches := on_boundary;
  intersects := rings_intersect
|}.
End Planar.

(** The boundary polygon that is exactly the bounding box. *)
Definition box_polygon (bounds : Bounds) : ring :=
  cell_polygon {| lat_low := b_lat_low bounds; lon_low := b_lon_low bounds;
                  lat_high := b_lat_high bounds; lon_high := b_lon_high bounds |}.

(** ** The disk, the provider and the state they are threaded through *)

(** A file of a cache directory, as [json.load] sees it: text that
    decodes to a value ([json.dump] writes such text, and decoding gives
    the dumped value back), text that does not decode, or a file whose
    opening or reading fails. *)
Inductive file : Type :=
  | JsonText (v : json)
  | Garbled
  | Unreadable.

Inductive exn : Type :=
  | JSONDecodeError
  | IOError.

Definition json_load (f : file) : exn + json :=
  match f with
  | JsonText v => inr v
  | Garbled => inl JSONDecodeError
  | Unreadable => inl IOError
  end.

Inductive SearchNearbyRequest : Type :=
  | FirstPage (center_lat center_lon : Q) (radius : Z)
              (included_types : list string) (max_result_count : Z)
  | NextPage (page_token : string) (max_result_count : Z).

(** What the run does to the outside world, most recent first. *)
Inductive Event : Type :=
  | EvSearchNearby (request : SearchNearbyRequest)
  | EvGetPlace (name : string)
  | EvSleep (seconds : Q).

Definition is_api_call (e : Event) : bool :=
  match e with
  | EvSearchNearby _ | EvGetPlace _ => true
  | EvSleep _ => false
  end.

Record World := {
  disk : gmap string file;
  trace : list Event
}.

Definition api_calls (w : World) : nat :=
  length (List.filter is_api_call (trace w)).

Definition M (A : Type) : Type := World -> A * World.

#[global] Instance M_ret : MRet M := fun A x w => (x, w).
#[global] Instance M_bind : MBind M := fun A B f c w => let '(x, w') := c w in f x w'.

Definition get_file (path : string) : M (option file) :=
  fun w => (disk w !! path, w).

Definition put_file (path : string) (f : file) : M unit :=
  fun w => (tt, {| disk := <[path := f]> (disk w); trace := trace w |}).

Definition emit (e : Event) : M unit :=
  fun w => (tt, {| disk := disk w; trace := e :: trace w |}).

Definition get_trace : M (list Event) := fun w => (trace w, w).

(** [asyncio.sleep(seconds)]. *)
Definition sleep (seconds : Q) : M unit := emit (EvSleep seconds).

(** ** The two caches *)

Section Cache.
Context `{Runtime}.

Definition grid_cache_file (cell : GridCell) : string :=
  CACHE_GRID_DIR ++ "/" ++ cache_filename cell.

Definition details_cache_file (place_id : string) : string :=
  CACHE_DETAILS_DIR ++ "/" ++ place_id ++ ".json".

Definition load_grid_cache (cell : GridCell) : M (option (list json)) :=
  cache_file ← get_file (grid_cache_file cell);
  match cache_file with
  | Some f =>
      match json_load f with
      | inr cached_data =>
          mret (Some (match cached_data with JArr l => l | _ => [] end))
      | inl JSONDecodeError | inl IOError => mret None
      end
  | None => mret None
  end.

Definition save_grid_cache (cell : GridCell) (results : list json) : M unit :=
  put_file (grid_cache_file cell) (JsonText (JArr results)).

Definition empty_marker : gmap string json := {[ "_empty" := JBool true ]}.

(** [cached_data == {"_empty": True}]. *)
Definition is_empty_marker (cached_data : json) : bool :=
  match cached_data with
  | JObj m =>
      Nat.eqb (size m) 1 &&
      match m !! "_empty" with
      | Some v => eq_True v
      | None => false
      end
  | _ => false
  end.

Definition load_details_cache (place_id : string) : M (option (gmap string json)) :=
  cache_file ← get_file (details_cache_file place_id);
  match cache_file with
  | Some f =>
      match json_load f with
      | inr cached_data =>
          if is_empty_marker cached_data then mret (Some ∅)
          else mret (Some (match cached_data with JObj m => m | _ => ∅ end))
      | inl JSONDecodeError | inl IOError => mret None
      end
  | None => mret None
  end.

Definition save_details_cache (place_id : string) (details : option (gmap string json))
  : M unit :=
  let data_to_save := match details with Some d => d | None => empty_marker end in
  put_file (details_cache_file place_id) (JsonText (JObj data_to_save)).
End Cache.

(** ** Provider objects

    A field of type [option] is [None] when the attribute is missing, or
    when the source tests it for truth and it is false. *)

Record LocalizedText := {
  lt_text : string;
  lt_language_code : string
}.

Record ReviewSummary := {
  rs_text : option LocalizedText;
  rs_reviews_uri : option string;
  rs_disclosure_text : option LocalizedText
}.

Record LatLng := {
  latitude : Q;
  longitude : Q
}.

Record Place := {
  p_id : option string;
  p_display_name : option LocalizedText;
  p_formatted_address : option string;
  p_location : option LatLng;
  p_types : option (list string);
  p_rating : option Q;
  p_user_rating_count : option Z;
  (** The attribute, and the name of the enum value unless it is zero. *)
  p_price_level : option (option string);
  p_website_uri : option string;
  p_national_phone_number : option string;
  p_business_status : option (option string);
  p_review_summary : option ReviewSummary
}.

Record SearchNearbyResponse := {
  places : list Place;
  next_page_token : option string;
  nextPageToken : option string
}.

Record AuthorAttribution := {
  a_display_name : option string;
  a_uri : option string;
  a_photo_uri : option string
}.

(** [review.publish_time]: a protobuf [Timestamp], or any other object,
    which may or may not have a [seconds] attribute and prints as
    [repr]. *)
Inductive PublishTime : Type :=
  | PbTimestamp (seconds nanos : Z)
  | OtherTime (seconds : option Z) (repr : string).

Record Review := {
  r_rating : option Q;
  r_text : option LocalizedText;
  r_author_attribution : option AuthorAttribution;
  r_publish_time : option PublishTime
}.

Record GenerativeSummary := {
  gs_overview : option LocalizedText;
  gs_description : option LocalizedText
}.

Record GetPlaceResponse := {
  reviews : list Review;
  generative_summary : option GenerativeSummary;
  review_summary : option ReviewSummary
}.

(** The client: each call sees what was done before it and either
    raises an exception, given by its [str], or answers. *)
Class Provider := {
  search_nearby : list Event -> SearchNearbyRequest -> string + SearchNearbyResponse;
  get_place : list Event -> string -> string + GetPlaceResponse
}.

(** ** Conversion of provider objects to dictionaries *)

Definition json_opt {A} (f : A -> json) (o : option A) : json :=
  match o with
  | Some x => f x
  | None => JNull
  end.

(** [if ...: d[k] = v]. *)
Definition set_if (k : string) (o : option json) (d : gmap string json)
  : gmap string json :=
  match o with
  | Some v => <[k := v]> d
  | None => d
  end.

Definition localized_text_dict (t : LocalizedText) : json :=
  JObj {[ "text" := JStr (lt_text t); "languageCode" := JStr (lt_language_code t) ]}.

Definition review_summary_dict (rs : ReviewSummary) : json :=
  JObj {[ "text" := json_opt localized_text_dict (rs_text rs);
          "reviewsUri" := json_opt JStr (rs_reviews_uri rs);
          "disclosureText" := json_opt localized_text_dict (rs_disclosure_text rs) ]}.

Definition lat_lng_dict (l : LatLng) : json :=
  JObj {[ "latitude" := JFloat (latitude l); "longitude" := JFloat (longitude l) ]}.

Definition _convert_place_to_dict (place : Place) : gmap string json :=
  let place_dict := ∅ in
  let place_dict := set_if "id" (JStr <$> p_id place) place_dict in
  let place_dict := set_if "displayName" (localized_text_dict <$> p_display_name place) place_dict in
  let place_dict := set_if "formattedAddress" (JStr <$> p_formatted_address place) place_dict in
  let place_dict := set_if "location" (lat_lng_dict <$> p_location place) place_dict in
  let place_dict := set_if "types" ((fun l => JArr (JStr <$> l)) <$> p_types place) place_dict in
  let place_dict := set_if "rating" (JFloat <$> p_rating place) place_dict in
  let place_dict := set_if "userRatingCount" (JInt <$> p_user_rating_count place) place_dict in
  let place_dict := set_if "priceLevel" (json_opt JStr <$> p_price_level place) place_dict in
  let place_dict := set_if "websiteUri" (JStr <$> p_website_uri place) place_dict in
  let place_dict :=
    set_if "nationalPhoneNumber" (JStr <$> p_national_phone_number place) place_dict in
  let place_dict := set_if "businessStatus" (json_opt JStr <$> p_business_status place) place_dict in
  let place_dict := set_if "reviewSummary" (review_summary_dict <$> p_review_summary place) place_dict in
  place_dict.

(** [place_dict.get('websiteUri') or place_dict.get('website_uri')]. *)
Definition has_website (d : gmap string json) : bool :=
  truthy (dict_get "websiteUri" d) || truthy (dict_get "website_uri" d).

(** ** The search radius of a cell *)

Definition radians (x : R) : R := (x * PI / 180)%R.

(** [int(x)] on a float: truncation towards zero. *)
Definition py_int (x : R) : Z :=
  if Rle_dec 0 x then Int_part x else (- Int_part (- x))%Z.

Definition lat_meters (cell : GridCell) : R :=
  (Q2R (lat_high cell - lat_low cell) * 111000)%R.

Definition lon_meters (cell : GridCell) : R :=
  (Q2R (lon_high cell - lon_low cell) * 111000
   * cos (radians (Q2R (fst (cell_center cell)))))%R.

Definition cell_diagonal (cell : GridCell) : R :=
  sqrt (lat_meters cell ^ 2 + lon_meters cell ^ 2).

Definition radius_meters (cell : GridCell) : Z :=
  Z.min (py_int (cell_diagonal cell + 100)) 50000.

(** ** Cell search *)

Section Pipeline.
Context `{Runtime} `{Provider}.

Definition call_search_nearby (request : SearchNearbyRequest)
  : M (string + SearchNearbyResponse) :=
  history ← get_trace;
  emit (EvSearchNearby request);;
  mret (search_nearby history request).

Definition call_get_place (name : string) : M (string + GetPlaceResponse) :=
  history ← get_trace;
  emit (EvGetPlace name);;
  mret (get_place history name).

(** ["429" in error_str or "RESOURCE_EXHAUSTED" in error_str]. *)
Definition rate_limited (error_str : string) : bool :=
  str_contains "429" error_str || str_contains "RESOURCE_EXHAUSTED" error_str.

(** The body of both [except Exception] handlers: cool down on a rate
    limit, otherwise only print. *)
Definition on_exception (error_str : string) : M unit :=
  if rate_limited error_str then sleep SLEEP_TIME else mret tt.

Definition page_results (response : SearchNearbyResponse) : list json :=
  JObj <$> List.filter has_website (_convert_place_to_dict <$> places response).

Definition nonempty_token (o : option string) : option string :=
  match o with
  | Some t => if String.eqb t "" then None else Some t
  | None => None
  end.

Definition response_token (response : SearchNearbyResponse) : option string :=
  match nonempty_token (next_page_token response) with
  | Some t => Some t
  | None => nonempty_token (nextPageToken response)
  end.

Definition max_pages : nat := 3.

(** The [while page_num <= max_pages] loop, by the number of pages
    still allowed. An exception ends the search with what the earlier
    pages gave. *)
Fixpoint search_pages (pages_left : nat) (request : SearchNearbyRequest)
  (all_results : list json) : M (list json) :=
  match pages_left with
  | O => mret all_results
  | S pages_left =>
      outcome ← call_search_nearby request;
      match outcome with
      | inl error_str => on_exception error_str;; mret all_results
      | inr response =>
          let all_results := (all_results ++ page_results response)%list in
          match response_token response with
          | Some next_page_token =>
              sleep 2%Q;;
              search_pages pages_left (NextPage next_page_token 20) all_results
          | None => mret all_results
          end
      end
  end.

(** The request of the first page: the circle around the cell centre. *)
Definition first_request (included_types : list string) (cell : GridCell)
  : SearchNearbyRequest :=
  let '(center_lat, center_lon) := cell_center cell in
  FirstPage center_lat center_lon (radius_meters cell) included_types 20.

Definition search_by_type_async (included_types : list string) (cell : GridCell)
  : M (list json) :=
  search_pages max_pages (first_request included_types cell) [].

(** ** Place details *)

Definition get_publish_time (review : Review) : Z :=
  match r_publish_time review with
  | Some (PbTimestamp seconds _) => seconds
  | Some (OtherTime (Some seconds) _) => seconds
  | Some (OtherTime None _) => 0
  | None => 0
  end.

(** [sorted(l, key=get_publish_time, reverse=True)]: descending, and
    reviews with equal keys keep their order. *)
Fixpoint insert_desc (x : Review) (l : list Review) : list Review :=
  match l with
  | [] => [x]
  | y :: l' =>
      if (get_publish_time y <=? get_publish_time x)%Z then x :: l
      else y :: insert_desc x l'
  end.

Definition sorted_reviews (l : list Review) : list Review :=
  foldr insert_desc [] l.

Definition author_dict (author : AuthorAttribution) : json :=
  JObj {[ "displayName" := json_opt JStr (a_display_name author);
          "uri" := json_opt JStr (a_uri author);
          "photoUri" := json_opt JStr (a_photo_uri author) ]}.

Definition publish_time_str (t : PublishTime) : json :=
  match t with
  | PbTimestamp seconds nanos =>
      match timestamp_isoformat seconds nanos with
      | Some iso => JStr (iso ++ "Z")
      | None => JStr (timestamp_str seconds nanos)
      end
  | OtherTime _ repr => JStr repr
  end.

Definition review_dict (review : Review) : json :=
  let d := ∅ in
  let d := set_if "rating" (JFloat <$> r_rating review) d in
  let d := set_if "text" (localized_text_dict <$> r_text review) d in
  let d := set_if "authorAttribution" (author_dict <$> r_author_attribution review) d in
  let d := set_if "publishTime" (publish_time_str <$> r_publish_time review) d in
  JObj d.

(** The reviews kept by the detail fetch, before conversion. *)
Definition kept_reviews (response : GetPlaceResponse) : list Review :=
  take MAX_REVIEWS (sorted_reviews (reviews response)).

Definition generative_summary_dict (g : GenerativeSummary) : json :=
  let d := ∅ in
  let d := set_if "overview" (localized_text_dict <$> gs_overview g) d in
  let d := set_if "description" (localized_text_dict <$> gs_description g) d in
  JObj d.

(** The [try] block of [get_place_details_async] after the call. *)
Definition place_details (response : GetPlaceResponse) : option (gmap string json) :=
  let details := ∅ in
  let details :=
    match reviews response with
    | [] => details
    | _ :: _ => <["reviews" := JArr (review_dict <$> kept_reviews response)]> details
    end in
  let details :=
    set_if "generativeSummary"
      (generative_summary_dict <$> generative_summary response) details in
  let details :=
    set_if "reviewSummary" (review_summary_dict <$> review_summary response) details in
  if truthy (JObj details) then Some details else None.

Definition get_place_details_async (place_id : string)
  : M (option (gmap string json)) :=
  outcome ← call_get_place ("places/" ++ place_id);
  match outcome with
  | inr response => mret (place_details response)
  | inl error_str => on_exception error_str;; mret None
  end.
End Pipeline.

(** ** The two phases *)

Section Orchestration.
Context `{Runtime} `{Provider}.

(** Returns [(results, from_cache, made_api_call)]. *)
Definition process_cell_async (cell : GridCell) : M (list json * bool * bool) :=
  cached_results ← load_grid_cache cell;
  match cached_results with
  | Some cached_results => mret (cached_results, true, false)
  | None =>
      results ← search_by_type_async ["restaurant"] cell;
      save_grid_cache cell results;;
      mret (results, false, true)
  end.

(** The innermost statement of the aggregation loops. The declared
    element type is a dictionary with a string id; another JSON value
    is passed over. *)
Definition add_result (all_restaurants : gmap string (gmap string json)) (result : json)
  : gmap string (gmap string json) :=
  match result with
  | JObj d =>
      match d !! "id" with
      | Some (JStr place_id) =>
          if has_website d then <[place_id := d]> all_restaurants else all_restaurants
      | _ => all_restaurants
      end
  | _ => all_restaurants
  end.

Definition aggregate (results_list : list (list json))
  : gmap string (gmap string json) :=
  foldl (fun all_restaurants results => foldl add_result all_restaurants results)
        ∅ results_list.

(** Awaits the cell tasks; [cells] lists the generated cells in the
    order in which their tasks complete. *)
Fixpoint gather_cells (cells : list GridCell) : M (list (list json * bool * bool)) :=
  match cells with
  | [] => mret []
  | cell :: cells =>
      outcome ← process_cell_async cell;
      outcomes ← gather_cells cells;
      mret (outcome :: outcomes)
  end.

Definition outcome_results (outcome : list json * bool * bool) : list json :=
  let '(results, from_cache, made_api_call) := outcome in results.

Definition scrape_grid_cells_async (cells : list GridCell)
  : M (gmap string (gmap string json)) :=
  outcomes ← gather_cells cells;
  let results_list := outcome_results <$> outcomes in
  mret (aggregate results_list).

(** Returns the restaurant after [restaurant.update(...)] and
    [(from_cache, made_api_call)]. *)
Definition enrich_restaurant_async (place_id : string) (restaurant : gmap string json)
  : M (gmap string json * bool * bool) :=
  cached_details ← load_details_cache place_id;
  match cached_details with
  | Some cached_details =>
      if truthy (JObj cached_details)
      then mret (dict_update restaurant cached_details, true, false)
      else mret (restaurant, true, false)
  | None =>
      details ← get_place_details_async place_id;
      save_details_cache place_id details;;
      match details with
      | Some d =>
          if truthy (JObj d)
          then sleep DETAILS_DELAY;; mret (dict_update restaurant d, false, true)
          else mret (restaurant, false, true)
      | None => mret (restaurant, false, true)
      end
  end.

(** Awaits the enrichment tasks; [place_ids] lists the keys of
    [restaurants] in the order in which their tasks complete. *)
Fixpoint enrich_restaurants_async (place_ids : list string)
  (restaurants : gmap string (gmap string json))
  : M (gmap string (gmap string json)) :=
  match place_ids with
  | [] => mret restaurants
  | place_id :: place_ids =>
      match restaurants !! place_id with
      | Some restaurant =>
          '(restaurant, _, _) ← enrich_restaurant_async place_id restaurant;
          enrich_restaurants_async place_ids (<[place_id := restaurant]> restaurants)
      | None => enrich_restaurants_async place_ids restaurants
      end
  end.

(** [main_async] up to the final write: the entity map that
    [save_output] serialises. *)
Definition main_async (cells : list GridCell) (place_ids : list string)
  : M (gmap string (gmap string json)) :=
  restaurants ← scrape_grid_cells_async cells;
  enrich_restaurants_async place_ids restaurants.
End Orchestration.

(** The tri-state record a cache lookup stands for. *)
Inductive CacheRecord (A : Type) : Type :=
  | Absent
  | Empty
  | Present (payload : A).
Arguments Absent {A}.
Arguments Empty {A}.
Arguments Present {A}.

Definition grid_record (r : option (list json)) : CacheRecord (list json) :=
  match r with
  | None => Absent
  | Some [] => Empty
  | Some (x :: l) => Present (x :: l)
  end.

Definition details_record (r : option (gmap string json))
  : CacheRecord (gmap string json) :=
  match r with
  | None => Absent
  | Some d => if truthy (JObj d) then Present d else Empty
  end.

(** ** Concrete inputs on which the model is run *)

Definition empty_world : World := {| disk := ∅; trace := [] |}.

(** A provider whose every call raises an exception with this text. *)
Definition failing_provider (error_str : string) : Provider := {|
  search_nearby _ _ := inl error_str;
  get_place _ _ := inl error_str
|}.

Definition unit_cell : GridCell :=
  {| lat_low := 0; lon_low := 0; lat_high := 1; lon_high := 1 |}.


Definition sample_entity : gmap string json :=
  {[ "id" := JStr "p1"; "websiteUri" := JStr "https://a.example" ]}.

Definition sample_details : gmap string json :=
  {[ "reviewSummary" := JObj {[ "text" := JNull; "reviewsUri" := JNull;
                                "disclosureText" := JNull ]} ]}.

(** Both records of the sample cell and place cannot be used. *)
Definition corrupt_world : World :=
  {| disk := {[ @grid_cache_file decimal_runtime unit_cell := Garbled;
                @details_cache_file "p1" := Unreadable ]};
     trace := [] |}.

(** Both records of the sample cell and place are there. *)
Definition warm_world : World :=
  {| disk := {[ @grid_cache_file decimal_runtime unit_cell
                  := JsonText (JArr [JObj sample_entity]);
                @details_cache_file "p1" := JsonText (JObj sample_details) ]};
     trace := [] |}.

(** ** Notions used to state the properties *)

(** Every decodable file of [w] is still there, unchanged, in [w']. *)
Definition extends (w w' : World) : Prop :=
  forall path v, disk w !! path = Some (JsonText v) -> disk w' !! path = Some (JsonText v).

(** A record that cannot be decoded, or cannot be read. *)
Definition malformed (f : file) : Prop := f = Garbled \/ f = Unreadable.

(** What [save_details_cache] writes for the result of a detail fetch:
    the empty marker for [None], the details otherwise. *)
Definition saved_by_fetch `{Runtime} (v : json) : Prop :=
  v = JObj empty_marker \/
  exists response d, place_details response = Some d /\ v = JObj d.

(** The restaurant after [restaurant.update(details)] guarded by
    [if details:]. *)
Definition updated (restaurant : gmap string json) (details : option (gmap string json))
  : gmap string json :=
  match details with
  | Some d => if truthy (JObj d) then dict_update restaurant d else restaurant
  | None => restaurant
  end.

(** The dictionary of a result that carries this id. *)
Definition occurrence_of (place_id : string) (result : json)
  : option (gmap string json) :=
  match result with
  | JObj d =>
      match d !! "id" with
      | Some (JStr s) => if decide (s = place_id) then Some d else None
      | _ => None
      end
  | _ => None
  end.

(** The occurrences of an id in the result lists, in the order in which
    the aggregation loops visit them. *)
Definition occurrences (place_id : string) (results_list : list (list json))
  : list (gmap string json) :=
  omap (occurrence_of place_id) (concat results_list).

(** The occurrence, when the aggregation loop inserts it. *)
Definition inserted_as (place_id : string) (result : json)
  : option (gmap string json) :=
  match occurrence_of place_id result with
  | Some d => if has_website d then Some d else None
  | None => None
  end.

(** A response with a review summary and nothing else. *)
Definition sample_response : GetPlaceResponse :=
  {| reviews := [];
     generative_summary := None;
     review_summary :=
       Some {| rs_text := None; rs_reviews_uri := None; rs_disclosure_text := None |} |}.

(** The same entity as seen from two cells, with different ratings. *)
Definition sample_entity_a : gmap string json := <["rating" := JInt 4]> sample_entity.
Definition sample_entity_b : gmap string json := <["rating" := JInt 5]> sample_entity.

(** The reviews in the dictionary a detail response is turned into. *)
Definition returned_reviews `{Runtime} (response : GetPlaceResponse) : list json :=
  match place_details response with
  | Some d =>
      match d !! "reviews" with
      | Some (JArr l) => l
      | _ => []
      end
  | None => []
  end.

(** The publish time of a review in nanoseconds, for protobuf
    timestamps. *)
Definition publish_instant (review : Review) : Z :=
  match r_publish_time review with
  | Some (PbTimestamp seconds nanos) => seconds * 1000000000 + nanos
  | _ => 0
  end.

(** [a] comes before [b] when sorted by key, most recent first. *)
Definition newer_key (a b : Review) : Prop :=
  (get_publish_time b < get_publish_time a)%Z.

Definition newer_or_equal_key (a b : Review) : Prop :=
  (get_publish_time b <= get_publish_time a)%Z.

Definition review_at (seconds nanos : Z) : Review :=
  {| r_rating := None; r_text := None; r_author_attribution := None;
     r_publish_time := Some (PbTimestamp seconds nanos) |}.

(** Two reviews published within the same second, the earlier first. *)
Definition same_second_response : GetPlaceResponse :=
  {| reviews := [review_at 100 1; review_at 100 5];
     generative_summary := None;
     review_summary := None |}.

(** Fifteen reviews, published at seconds 1 to 15 in a shuffled order. *)
Definition fifteen_reviews_response : GetPlaceResponse :=
  {| reviews :=
       (fun seconds => review_at seconds 0)
         <$> [3; 14; 1; 5; 9; 2; 6; 15; 8; 7; 13; 4; 12; 10; 11]%Z;
     generative_summary := None;
     review_summary := None |}.

(** A thin diagonal polygon lying inside the first cell of a two by two
    grid over the box from 0 to 2, away from its centre and corners. *)
Definition sliver : ring :=
  [ (1 # 10, 4 # 10); (4 # 10, 1 # 10); (45 # 100, 15 # 100); (15 # 100, 45 # 100) ]%Q.

Definition sliver_bounds : Bounds :=
  {| b_lat_low := 0; b_lat_high := 2; b_lon_low := 0; b_lon_high := 2 |}.

Definition sliver_cell : GridCell :=
  grid_cell sliver_bounds ((2 - 0) / inject_Z 2) ((2 - 0) / inject_Z 2) 0 0.

(** A square cell of 0.01 degrees centred on the equator. *)
Definition equator_cell : GridCell :=
  {| lat_low := - (5 # 1000); lon_low := 0; lat_high := 5 # 1000; lon_high := 1 # 100 |}.

Definition half_diagonal (cell : GridCell) : R := (cell_diagonal cell / 2)%R.

(** The radius is half the diagonal of the cell to within ten per cent,
    the buffer being allowed on top. *)
Definition about_half_diagonal (cell : GridCell) (radius : Z) : Prop :=
  (9 / 10 * half_diagonal cell <= IZR radius
   <= 11 / 10 * (half_diagonal cell + 100))%R.

(** ** The boundary polygon as the module global of the source

    [MANHATTAN_POLYGON] starts as [None] and is filled by the first
    successful call of [load_manhattan_boundary()]. *)

(** What a call of [load_manhattan_boundary()] does: raise, return
    [None], or return a polygon. *)
Inductive LoadOutcome : Type :=
  | LoadRaises (error_str : string)
  | LoadNone
  | LoadPolygon (polygon : ring).

(** The loader; its answer may depend on the number of earlier calls. *)
Class BoundaryLoader := {
  load_manhattan_boundary : nat -> LoadOutcome
}.

Inductive GridError : Type :=
  | AttributeError
  | ZeroDivisionError.

(** [cell_polygon.intersects(None)]: an exception or a boolean,
    depending on the version of shapely. *)
Class MissingGeometry := {
  intersects_none : GridError + bool
}.

Record Globals := {
  MANHATTAN_POLYGON : option ring;
  (** The number of calls of the loader so far. *)
  boundary_loads : nat
}.

Definition G (A : Type) : Type := Globals -> (GridError + A) * Globals.

#[global] Instance G_ret : MRet G := fun A x g => (inr x, g).
#[global] Instance G_bind : MBind G := fun A B f c g =>
  match c g with
  | (inr x, g') => f x g'
  | (inl e, g') => (inl e, g')
  end.

Definition py_raise {A} (e : GridError) : G A := fun g => (inl e, g).

Module Global.
Section Boundary.
Context `{Shapely} `{BoundaryLoader} `{MissingGeometry}.

Definition _get_manhattan_polygon : G (option ring) := fun g =>
  match MANHATTAN_POLYGON g with
  | Some polygon => (inr (Some polygon), g)
  | None =>
      let loaded := S (boundary_loads g) in
      match load_manhattan_boundary (boundary_loads g) with
      | LoadPolygon polygon =>
          (inr (Some polygon),
           {| MANHATTAN_POLYGON := Some polygon; boundary_loads := loaded |})
      | LoadNone | LoadRaises _ =>
          (inr (MANHATTAN_POLYGON g),
           {| MANHATTAN_POLYGON := MANHATTAN_POLYGON g; boundary_loads := loaded |})
      end
  end.

Definition point_in_manhattan (lat lon : Q) : G bool :=
  polygon ← _get_manhattan_polygon;
  match polygon return G bool with
  | Some polygon => mret (contains polygon (lon, lat) || touches polygon (lon, lat))
  | None => py_raise AttributeError
  end.

(** [for lat, lon in corners: if point_in_manhattan(lat, lon): return True]. *)
Fixpoint any_corner (corners : list (Q * Q)) : G bool :=
  match corners with
  | [] => mret false
  | (lat, lon) :: corners =>
      inside ← point_in_manhattan lat lon;
      if (inside : bool) then mret true else any_corner corners
  end.

Definition cell_overlaps_manhattan (cell : GridCell) : G bool :=
  let '(center_lat, center_lon) := cell_center cell in
  inside ← point_in_manhattan center_lat center_lon;
  if (inside : bool) then mret true
  else
    found ← any_corner (cell_corners cell);
    if (found : bool) then mret true
    else
      polygon ← _get_manhattan_polygon;
      match polygon return G bool with
      | Some polygon => mret (intersects (cell_polygon cell) polygon)
      | None => fun g => (intersects_none, g)
      end.

(** The body of the two nested loops, over the cells in their order. *)
Fixpoint keep_overlapping (cells : list GridCell) : G (list GridCell) :=
  match cells with
  | [] => mret []
  | cell :: cells =>
      overlaps ← cell_overlaps_manhattan cell;
      all_cells ← keep_overlapping cells;
      mret (if (overlaps : bool) then cell :: all_cells else all_cells)
  end.

Definition generate_grid_cells (bounds : Bounds) (grid_size : nat) : G (list GridCell) :=
  match grid_size with
  | O => py_raise ZeroDivisionError
  | _ => keep_overlapping (lattice bounds grid_size)
  end.
End Boundary.
End Global.

(** The module state before the first use of the boundary. *)
Definition initial_globals : Globals :=
  {| MANHATTAN_POLYGON := None; boundary_loads := 0 |}.

(** A loader that always does the same. *)
Definition constant_loader (outcome : LoadOutcome) : BoundaryLoader :=
  {| load_manhattan_boundary _ := outcome |}.

Definition shapely_1 : MissingGeometry := {| intersects_none := inl AttributeError |}.

(** ** The output file and its reader in [visualize_restaurants.py] *)

Definition OUTPUT_FILE : string := "manhattan_restaurants.json".

(** [save_output]; [utcnow] stands for [datetime.utcnow().isoformat()].
    The restaurants are listed in the order of the map, which does not
    record the order of insertion. *)
Definition save_output (utcnow : string) (restaurants : gmap string (gmap string json))
  : M unit :=
  let output : gmap string json :=
    {[ "total_count" := JInt (Z.of_nat (size restaurants));
       "scraped_at" := JStr (utcnow ++ "Z");
       "restaurants" := JArr (JObj <$> (map_to_list restaurants).*2) ]} in
  put_file OUTPUT_FILE (JsonText (JObj output)).

Module Visualize.

Inductive Error : Type :=
  | FileNotFoundError
  | LoadError (e : exn)
  | ValueError
  | TypeError
  | AttributeError.

Definition load_restaurants (json_file : string) : M (Error + json) :=
  f ← get_file json_file;
  match f with
  | None => mret (inl FileNotFoundError)
  | Some f =>
      match json_load f with
      | inl e => mret (inl (LoadError e))
      | inr data =>
          match data with
          | JObj d =>
              match d !! "restaurants" with
              | Some restaurants => mret (inr restaurants)
              | None => mret (inl ValueError)
              end
          | JArr _ => mret (inr data)
          | _ => mret (inl ValueError)
          end
      end
  end.

(** [v.get(k, default)]: only a dictionary has the method. *)
Definition method_get (v : json) (k : string) (fallback : json) : Error + json :=
  match v with
  | JObj d =>
      match d !! k with
      | Some x => inr x
      | None => inr fallback
      end
  | _ => inl AttributeError
  end.

(** ['location' in restaurant and restaurant['location']]: the location
    when the test passes. On a list or a string the membership test
    works, and the subscript then raises. *)
Definition tested_location (restaurant : json) : Error + option json :=
  match restaurant with
  | JObj d =>
      match d !! "location" with
      | Some location => inr (if truthy location then Some location else None)
      | None => inr None
      end
  | JArr l =>
      if existsb (fun x => match x with
                           | JStr s => String.eqb s "location"
                           | _ => false
                           end) l
      then inl TypeError else inr None
  | JStr s => if str_contains "location" s then inl TypeError else inr None
  | _ => inl TypeError
  end.

(** The body of the loop: the tuple appended for this restaurant, if
    any. *)
Definition location_entry (restaurant : json) : Error + option (json * json * json) :=
  match tested_location restaurant with
  | inl e => inl e
  | inr None => inr None
  | inr (Some location) =>
      match method_get location "latitude" JNull with
      | inl e => inl e
      | inr lat =>
          match method_get location "longitude" JNull with
          | inl e => inl e
          | inr lon =>
              match method_get restaurant "displayName" (JObj ∅) with
              | inl e => inl e
              | inr display_name =>
                  match method_get display_name "text" (JStr "Unknown") with
                  | inl e => inl e
                  | inr name =>
                      match lat, lon with
                      | JNull, _ | _, JNull => inr None
                      | _, _ => inr (Some (lat, lon, name))
                      end
                  end
              end
          end
      end
  end.

Fixpoint extract_locations (restaurants : list json)
  : Error + list (json * json * json) :=
  match restaurants with
  | [] => inr []
  | restaurant :: restaurants =>
      match location_entry restaurant with
      | inl e => inl e
      | inr entry =>
          match extract_locations restaurants with
          | inl e => inl e
          | inr locations =>
              inr (match entry with
                   | Some location => location :: locations
                   | None => locations
                   end)
          end
      end
  end.
End Visualize.

(** What the map shows for a place: its coordinates and its name. *)
Definition place_location (place : Place) : option (json * json * json) :=
  match p_location place with
  | Some location =>
      Some (JFloat (latitude location), JFloat (longitude location),
            match p_display_name place with
            | Some name => JStr (lt_text name)
            | None => JStr "Unknown"
            end)
  | None => None
  end.

(** The restaurant has the location and the name that the conversion of
    the place gave it. *)
Definition shows_place (restaurant : gmap string json) (place : Place) : Prop :=
  restaurant !! "location" = _convert_place_to_dict place !! "location" /\
  restaurant !! "displayName" = _convert_place_to_dict place !! "displayName".

(** A place with a name and a location. *)
Definition located_place : Place :=
  {| p_id := Some "p3";
     p_display_name := Some {| lt_text := "Corner Bistro"; lt_language_code := "en" |};
     p_formatted_address := None;
     p_location := Some {| latitude := 4075 # 100; longitude := - (7399 # 100) |};
     p_types := None; p_rating := None;
     p_user_rating_count := None; p_price_level := None;
     p_website_uri := Some "https://c.example"; p_national_phone_number := None;
     p_business_status := None; p_review_summary := None |}.

(** The square boundary of the grid-coverage claim: the corners of the
    bounding box as [(lon, lat)] points, south-west first and repeated
    at the end. *)
Definition square_boundary (bounds : Bounds) : ring :=
  [ (b_lon_low bounds, b_lat_low bounds);
    (b_lon_high bounds, b_lat_low bounds);
    (b_lon_high bounds, b_lat_high bounds);
    (b_lon_low bounds, b_lat_high bounds);
    (b_lon_low bounds, b_lat_low bounds) ].

(** [cell] is the cell in row [i] and column [j] of the [n] by [n]
    lattice over the box: its edges are the [i]-th and [i+1]-th of the
    [n+1] equally spaced latitudes, and the [j]-th and [j+1]-th of the
    longitudes. *)
Definition is_lattice_cell (bounds : Bounds) (n i j : nat) (cell : GridCell) : Prop :=
  let lat_span := (b_lat_high bounds - b_lat_low bounds)%Q in
  let lon_span := (b_lon_high bounds - b_lon_low bounds)%Q in
  (lat_low cell == b_lat_low bounds + lat_span * (Z.of_nat i # 1) / (Z.of_nat n # 1) /\
   lat_high cell == b_lat_low bounds + lat_span * (Z.of_nat i + 1 # 1) / (Z.of_nat n # 1) /\
   lon_low cell == b_lon_low bounds + lon_span * (Z.of_nat j # 1) / (Z.of_nat n # 1) /\
   lon_high cell == b_lon_low bounds + lon_span * (Z.of_nat j + 1 # 1) / (Z.of_nat n # 1))%Q.

(** ** Cache files as they are on disk

    [file] covers the records that read as text, and those on which
    reading fails with one of the two exceptions the loaders catch.
    [open(..., encoding='utf-8')] followed by [json.load] can raise
    others: [UnicodeDecodeError] on bytes that are not valid UTF-8, and
    [RecursionError] on text nested too deeply. *)

Module Raw.

Inductive Exception : Type :=
  | JSONDecodeError
  | IOError
  | UnicodeDecodeError
  | RecursionError.

Inductive Stored : Type :=
  | Text (f : file)
  | InvalidUtf8
  | NestedTooDeep.

Definition json_load (s : Stored) : Exception + json :=
  match s with
  | Text (JsonText v) => inr v
  | Text Garbled => inl JSONDecodeError
  | Text Unreadable => inl IOError
  | InvalidUtf8 => inl UnicodeDecodeError
  | NestedTooDeep => inl RecursionError
  end.

(** [except (json.JSONDecodeError, IOError)]: neither of the other two
    is a subclass of these. *)
Definition caught (e : Exception) : bool :=
  match e with
  | JSONDecodeError | IOError => true
  | UnicodeDecodeError | RecursionError => false
  end.

(** The loaders, by the file found at the path, [None] when there is
    none; [inl] is the exception that leaves the loader. *)
Definition load_grid_cache (cache_file : option Stored) : Exception + option (list json) :=
  match cache_file with
  | Some s =>
      match json_load s with
      | inr cached_data => inr (Some (match cached_data with JArr l => l | _ => [] end))
      | inl e => if caught e then inr None else inl e
      end
  | None => inr None
  end.

Definition load_details_cache (cache_file : option Stored)
  : Exception + option (gmap string json) :=
  match cache_file with
  | Some s =>
      match json_load s with
      | inr cached_data =>
          if is_empty_marker cached_data then inr (Some ∅)
          else inr (Some (match cached_data with JObj m => m | _ => ∅ end))
      | inl e => if caught e then inr None else inl e
      end
  | None => inr None
  end.

Record State := {
  stored : gmap string Stored;
  calls : list Event
}.

Section Tasks.
Context `{Runtime} `{Provider}.

(** [process_cell_async]: nothing in it catches what the loader lets
    through. *)
Definition process_cell_async (cell : GridCell) (st : State)
  : (Exception + list json * bool * bool) * State :=
  match load_grid_cache (stored st !! grid_cache_file cell) with
  | inl e => (inl e, st)
  | inr (Some cached_results) => (inr (cached_results, true, false), st)
  | inr None =>
      let '(results, w) :=
        search_by_type_async ["restaurant"] cell {| disk := ∅; trace := calls st |} in
      (inr (results, false, true),
       {| stored := <[grid_cache_file cell := Text (JsonText (JArr results))]> (stored st);
          calls := trace w |})
  end.

(** The loop over the completed cell tasks in [scrape_grid_cells_async]:
    [await coro] raises what the task raised, and nothing catches it on
    the way out of [main_async]. *)
Fixpoint gather_cells (cells : list GridCell) (st : State)
  : (Exception + list (list json * bool * bool)) * State :=
  match cells with
  | [] => (inr [], st)
  | cell :: cells =>
      match process_cell_async cell st with
      | (inl e, st) => (inl e, st)
      | (inr outcome, st) =>
          match gather_cells cells st with
          | (inl e, st) => (inl e, st)
          | (inr outcomes, st) => (inr (outcome :: outcomes), st)
          end
      end
  end.
End Tasks.
End Raw.

(** The record of the sample cell is not valid UTF-8. *)
Definition invalid_utf8_state : Raw.State :=
  {| Raw.stored := {[ @grid_cache_file decimal_runtime unit_cell := Raw.InvalidUtf8 ]};
     Raw.calls := [] |}.

(** The rectangle of a cell by its coordinates: the points [(lon, lat)]
    between its edges. *)
Definition in_rectangle (cell : GridCell) (pt : point) : Prop :=
  (lon_low cell <= fst pt /\ fst pt <= lon_high cell /\
   lat_low cell <= snd pt /\ snd pt <= lat_high cell)%Q.

(** The same rectangle as a polygon: its corners as [(lon, lat)] points,
    south-west first and repeated at the end. *)
Definition rectangle_ring (cell : GridCell) : ring :=
  [ (lon_low cell, lat_low cell);
    (lon_high cell, lat_low cell);
    (lon_high cell, lat_high cell);
    (lon_low cell, lat_high cell);
    (lon_low cell, lat_low cell) ].

(** The point lies in the polygon or on its edge, by shapely's two
    predicates on points. *)
Definition covers `{Shapely} (r : ring) (pt : point) : bool :=
  contains r pt || touches r pt.

(** What shapely's predicates mean as sets of points, as far as the
    sliver claim needs it: the polygon built from the corners of the
    rectangle covers every point of the rectangle, and it intersects a
    polygon with which it shares a point. *)
Definition point_set_semantics `{Shapely} (cell : GridCell) (polygon : ring) : Prop :=
  (forall pt, in_rectangle cell pt -> covers (rectangle_ring cell) pt = true) /\
  (forall pt, covers (rectangle_ring cell) pt = true -> covers polygon pt = true ->
              intersects (rectangle_ring cell) polygon = true).

(** ** Notions used for the further properties *)

(** The provider gave the place a non-empty [website_uri]. *)
Definition website_present (place : Place) : bool :=
  match p_website_uri place with
  | Some uri => negb (String.eqb uri "")
  | None => false
  end.

(** A result as the search step returns it: a dictionary that passes
    the website test. *)
Definition well_formed_result (result : json) : Prop :=
  exists d, result = JObj d /\ has_website d = true.

(** What [on_exception] adds to the trace. *)
Definition cooldown (error_str : string) : list Event :=
  if str_contains "429" error_str || str_contains "RESOURCE_EXHAUSTED" error_str
  then [EvSleep SLEEP_TIME] else [].

(** A place with an id and a website, and nothing else. *)
Definition sample_place : Place :=
  {| p_id := Some "p1"; p_display_name := None; p_formatted_address := None;
     p_location := None; p_types := None; p_rating := None;
     p_user_rating_count := None; p_price_level := None;
     p_website_uri := Some "https://a.example"; p_national_phone_number := None;
     p_business_status := None; p_review_summary := None |}.

(** A page with one place. *)
Definition page_with_token (token : option string) : SearchNearbyResponse :=
  {| places := [sample_place]; next_page_token := token; nextPageToken := None |}.

(** A provider that answers the first page of every search with one
    place and this token, raises on every later page, and answers every
    detail request. *)
Definition paging_provider (token : option string) (error_str : string) : Provider := {|
  search_nearby _ request :=
    match request with
    | FirstPage _ _ _ _ _ => inr (page_with_token token)
    | NextPage _ _ => inl error_str
    end;
  get_place _ _ := inr sample_response
|}.

(** Both records of the sample cell and place decode, to JSON of the
    wrong type. *)
Definition mistyped_world : World :=
  {| disk := {[ @grid_cache_file decimal_runtime unit_cell := JsonText (JObj ∅);
                @details_cache_file "p1" := JsonText (JArr [JStr "x"]) ]};
     trace := [] |}.

(** The counters of the loop over the completed cell tasks in
    [scrape_grid_cells_async]: cache hits, cells that called the API,
    and cells with sixty results or more. *)
Definition count_cell (counters : nat * nat * nat) (outcome : list json * bool * bool)
  : nat * nat * nat :=
  let '(cache_hits, calls, limit_hits) := counters in
  let '(results, from_cache, made_api_call) := outcome in
  (if from_cache then S cache_hits else cache_hits,
   if made_api_call then S calls else calls,
   if (60 <=? length results)%nat then S limit_hits else limit_hits).

Definition grid_counters (outcomes : list (list json * bool * bool)) : nat * nat * nat :=
  foldl count_cell (0, 0, 0)%nat outcomes.

(** The details records of [w] that decode are such as a run leaves
    behind, or read as empty: each was written by [save_details_cache]
    from the result of a detail fetch, or is not a dictionary. *)
Definition details_records_ok `{Runtime} (w : World) : Prop :=
  forall place_id v,
    disk w !! details_cache_file place_id = Some (JsonText v) ->
    saved_by_fetch v \/ forall d, v <> JObj d.

(** An entry of the restaurant map: keyed by its own id, with a
    website. *)
Definition entry_ok (place_id : string) (restaurant : gmap string json) : Prop :=
  restaurant !! "id" = Some (JStr place_id) /\ has_website restaurant = true.

(** A second entity, with another id. *)
Definition other_entity : gmap string json :=
  {[ "id" := JStr "p2"; "websiteUri" := JStr "https://b.example" ]}.







(** * Properties *)

Ltac run_m :=
  repeat (unfold mbind, M_bind, mret, M_ret, get_file, put_file, emit, get_trace, sleep
          in *; simpl in *).

Section CacheFacts.
Context `{Runtime}.

Lemma load_grid_cache_pure cell w : (load_grid_cache cell w).2 = w.
Proof.
  unfold load_grid_cache. run_m.
  destruct (disk w !! grid_cache_file cell) as [[v| |]|]; reflexivity.
Qed.

Lemma load_details_cache_pure place_id w : (load_details_cache place_id w).2 = w.
Proof.
  unfold load_details_cache. run_m.
  destruct (disk w !! details_cache_file place_id) as [[v| |]|]; simpl; try reflexivity.
  destruct (is_empty_marker v); reflexivity.
Qed.

Lemma load_grid_cache_lookup cell w :
  (load_grid_cache cell w).1 =
  match disk w !! grid_cache_file cell with
  | Some (JsonText (JArr l)) => Some l
  | Some (JsonText _) => Some []
  | _ => None
  end.
Proof.
  unfold load_grid_cache. run_m.
  destruct (disk w !! grid_cache_file cell) as [[v| |]|]; try reflexivity.
  destruct v; reflexivity.
Qed.

Lemma load_details_cache_lookup place_id w :
  (load_details_cache place_id w).1 =
  match disk w !! details_cache_file place_id with
  | Some (JsonText v) =>
      if is_empty_marker v then Some ∅
      else Some (match v with JObj m => m | _ => ∅ end)
  | _ => None
  end.
Proof.
  unfold load_details_cache. run_m.
  destruct (disk w !! details_cache_file place_id) as [[v| |]|]; simpl; try reflexivity.
  destruct (is_empty_marker v); reflexivity.
Qed.

Lemma save_grid_cache_disk cell results w :
  disk (save_grid_cache cell results w).2
  = <[grid_cache_file cell := JsonText (JArr results)]> (disk w).
Proof. reflexivity. Qed.

Lemma save_grid_cache_trace cell results w :
  trace (save_grid_cache cell results w).2 = trace w.
Proof. reflexivity. Qed.

Lemma load_after_save_grid cell results w :
  (load_grid_cache cell (save_grid_cache cell results w).2).1 = Some results.
Proof.
  rewrite load_grid_cache_lookup, save_grid_cache_disk, lookup_insert_eq.
  reflexivity.
Qed.

Lemma empty_marker_is_marker : is_empty_marker (JObj empty_marker) = true.
Proof. reflexivity. Qed.

Lemma load_after_save_details place_id details w :
  (load_details_cache place_id (save_details_cache place_id details w).2).1 =
  match details with
  | Some d => if is_empty_marker (JObj d) then Some ∅ else Some d
  | None => Some ∅
  end.
Proof.
  rewrite load_details_cache_lookup. unfold save_details_cache. run_m.
  rewrite lookup_insert_eq. destruct details as [d|]; reflexivity.
Qed.
End CacheFacts.

Lemma extends_refl w : extends w w.
Proof. intros path v Hp. exact Hp. Qed.

Lemma extends_trans w1 w2 w3 : extends w1 w2 -> extends w2 w3 -> extends w1 w3.
Proof. intros H12 H23 path v Hp. apply H23, H12, Hp. Qed.

Section PipelineFacts.
Context `{Runtime} `{Provider}.

Lemma load_grid_cache_run cell w :
  load_grid_cache cell w = ((load_grid_cache cell w).1, w).
Proof.
  rewrite <- (load_grid_cache_pure cell w) at 3. apply surjective_pairing.
Qed.

Lemma load_details_cache_run place_id w :
  load_details_cache place_id w = ((load_details_cache place_id w).1, w).
Proof.
  rewrite <- (load_details_cache_pure place_id w) at 3. apply surjective_pairing.
Qed.

Lemma load_grid_cache_extends cell w w' r :
  extends w w' ->
  (load_grid_cache cell w).1 = Some r -> (load_grid_cache cell w').1 = Some r.
Proof.
  intros Hext. rewrite !load_grid_cache_lookup.
  destruct (disk w !! grid_cache_file cell) as [[v| |]|] eqn:Hf; try discriminate.
  rewrite (Hext _ _ Hf). trivial.
Qed.

Lemma load_details_cache_extends place_id w w' d :
  extends w w' ->
  (load_details_cache place_id w).1 = Some d ->
  (load_details_cache place_id w').1 = Some d.
Proof.
  intros Hext. rewrite !load_details_cache_lookup.
  destruct (disk w !! details_cache_file place_id) as [[v| |]|] eqn:Hf; try discriminate.
  rewrite (Hext _ _ Hf). trivial.
Qed.

Lemma search_pages_disk n request acc w :
  disk (search_pages n request acc w).2 = disk w.
Proof.
  revert request acc w. induction n as [|n IH]; intros request acc w; [reflexivity|].
  simpl. unfold call_search_nearby, on_exception. run_m.
  destruct (search_nearby (trace w) request) as [error_str|response].
  - destruct (rate_limited error_str); reflexivity.
  - destruct (response_token response) as [tok|]; [|reflexivity].
    run_m. rewrite IH. reflexivity.
Qed.

Lemma search_by_type_async_disk types cell w :
  disk (search_by_type_async types cell w).2 = disk w.
Proof.
  unfold search_by_type_async. apply search_pages_disk.
Qed.

Lemma process_cell_async_run cell w :
  process_cell_async cell w =
  match (load_grid_cache cell w).1 with
  | Some cached_results => ((cached_results, true, false), w)
  | None =>
      let results := (search_by_type_async ["restaurant"] cell w).1 in
      let w1 := (search_by_type_async ["restaurant"] cell w).2 in
      ((results, false, true), (save_grid_cache cell results w1).2)
  end.
Proof.
  unfold process_cell_async, mbind, M_bind.
  rewrite load_grid_cache_run.
  destruct (load_grid_cache cell w).1 as [r|]; [reflexivity|].
  destruct (search_by_type_async ["restaurant"] cell w) as [results w1].
  reflexivity.
Qed.

Lemma process_cell_async_cached cell w :
  (load_grid_cache cell (process_cell_async cell w).2).1
  = Some (process_cell_async cell w).1.1.1.
Proof.
  rewrite process_cell_async_run.
  destruct (load_grid_cache cell w).1 as [r|] eqn:Hload; simpl; [exact Hload|].
  apply load_after_save_grid.
Qed.

Lemma process_cell_async_extends cell w :
  extends w (process_cell_async cell w).2.
Proof.
  rewrite process_cell_async_run.
  destruct (load_grid_cache cell w).1 as [r|] eqn:Hload; [apply extends_refl|].
  pose proof (search_by_type_async_disk ["restaurant"] cell w) as Hdisk.
  destruct (search_by_type_async ["restaurant"] cell w) as [results w1].
  simpl in *. intros path v Hp. simpl. rewrite lookup_insert_ne.
  - rewrite Hdisk. exact Hp.
  - intros <-. rewrite load_grid_cache_lookup, Hp in Hload.
    destruct v; discriminate.
Qed.
End PipelineFacts.

Section DetailFacts.
Context `{Runtime} `{Provider}.

Lemma set_if_lookup_ne k o (d : gmap string json) k' :
  k <> k' -> set_if k o d !! k' = d !! k'.
Proof.
  intros Hne. destruct o as [v|]; simpl; [|reflexivity].
  apply lookup_insert_ne, Hne.
Qed.

(** The details of a place have no other keys than the three it sets. *)
Lemma place_details_keys response d k :
  place_details response = Some d ->
  k <> "reviews" -> k <> "generativeSummary" -> k <> "reviewSummary" ->
  d !! k = None.
Proof.
  unfold place_details. intros Hd Hr Hg Hs.
  match type of Hd with (if truthy (JObj ?m) then _ else _) = _ =>
    assert (m !! k = None) as Hk; [|destruct (truthy (JObj m)); congruence] end.
  rewrite !set_if_lookup_ne by congruence.
  destruct (reviews response); [apply lookup_empty|].
  rewrite lookup_insert_ne by congruence. apply lookup_empty.
Qed.

Lemma place_details_truthy response d :
  place_details response = Some d -> truthy (JObj d) = true.
Proof.
  unfold place_details.
  match goal with |- (if truthy (JObj ?m) then _ else _) = _ -> _ =>
    destruct (truthy (JObj m)) eqn:Ht end; [|discriminate].
  intros [= <-]. exact Ht.
Qed.

Lemma place_details_not_marker response d :
  place_details response = Some d -> is_empty_marker (JObj d) = false.
Proof.
  intros Hd. unfold is_empty_marker.
  rewrite (place_details_keys response d "_empty" Hd) by discriminate.
  apply andb_false_r.
Qed.

Lemma get_place_details_async_disk place_id w :
  disk (get_place_details_async place_id w).2 = disk w.
Proof.
  unfold get_place_details_async, call_get_place, on_exception. run_m.
  destruct (get_place (trace w) ("places/" ++ place_id)) as [error_str|response];
    [|reflexivity].
  destruct (rate_limited error_str); reflexivity.
Qed.

Lemma get_place_details_async_result place_id w d :
  (get_place_details_async place_id w).1 = Some d ->
  exists response, place_details response = Some d.
Proof.
  unfold get_place_details_async, call_get_place, on_exception. run_m.
  destruct (get_place (trace w) ("places/" ++ place_id)) as [error_str|response].
  - destruct (rate_limited error_str); discriminate.
  - simpl. intros Hd. exists response. exact Hd.
Qed.

Lemma enrich_restaurant_async_run place_id restaurant w :
  enrich_restaurant_async place_id restaurant w =
  match (load_details_cache place_id w).1 with
  | Some cached_details => ((updated restaurant (Some cached_details), true, false), w)
  | None =>
      let details := (get_place_details_async place_id w).1 in
      let w1 := (get_place_details_async place_id w).2 in
      let w2 := (save_details_cache place_id details w1).2 in
      ((updated restaurant details, false, true),
       match details with
       | Some d => if truthy (JObj d) then (sleep DETAILS_DELAY w2).2 else w2
       | None => w2
       end)
  end.
Proof.
  unfold enrich_restaurant_async, mbind, M_bind.
  rewrite load_details_cache_run.
  destruct (load_details_cache place_id w).1 as [cached|]; simpl.
  - destruct (truthy (JObj cached)); reflexivity.
  - destruct (get_place_details_async place_id w) as [[d|] w1]; simpl; [|reflexivity].
    destruct (truthy (JObj d)); reflexivity.
Qed.
End DetailFacts.

Section RerunFacts.
Context `{Runtime} `{Provider}.

Lemma enrich_restaurant_async_extends place_id restaurant w :
  extends w (enrich_restaurant_async place_id restaurant w).2.
Proof.
  rewrite enrich_restaurant_async_run.
  destruct (load_details_cache place_id w).1 as [cached|] eqn:Hload;
    [apply extends_refl|].
  pose proof (get_place_details_async_disk place_id w) as Hdisk.
  destruct (get_place_details_async place_id w) as [details w1].
  simpl in *. intros path v Hp.
  assert (path <> details_cache_file place_id) as Hne.
  { intros ->. rewrite load_details_cache_lookup, Hp in Hload.
    destruct (is_empty_marker v); discriminate. }
  destruct details as [d|]; [destruct (truthy (JObj d))|]; simpl;
    rewrite lookup_insert_ne by congruence; rewrite Hdisk; exact Hp.
Qed.

(** Once a restaurant has been enriched, enriching it again in any later
    state of the disk is a cache hit with the same outcome. *)
Lemma enrich_restaurant_async_stable place_id restaurant w w' :
  extends (enrich_restaurant_async place_id restaurant w).2 w' ->
  enrich_restaurant_async place_id restaurant w'
  = (((enrich_restaurant_async place_id restaurant w).1.1.1, true, false), w').
Proof.
  rewrite (enrich_restaurant_async_run place_id restaurant w).
  destruct (load_details_cache place_id w).1 as [cached|] eqn:Hload.
  - simpl. intros Hext. rewrite enrich_restaurant_async_run.
    rewrite (load_details_cache_extends _ _ _ _ Hext Hload). reflexivity.
  - pose proof (get_place_details_async_result place_id w) as Hres.
    destruct (get_place_details_async place_id w) as [details w1].
    simpl in *. intros Hext.
    assert (disk w' !! details_cache_file place_id
            = Some (JsonText (JObj (match details with
                                    | Some d => d
                                    | None => empty_marker
                                    end)))) as Hfile.
    { apply Hext.
      destruct details as [d|]; [destruct (truthy (JObj d))|]; simpl;
        apply lookup_insert_eq. }
    rewrite enrich_restaurant_async_run, load_details_cache_lookup, Hfile.
    destruct details as [d|]; [|reflexivity].
    destruct (Hres d eq_refl) as [response Hd].
    rewrite (place_details_not_marker _ _ Hd). reflexivity.
Qed.

Lemma process_cell_async_stable cell w w' :
  extends (process_cell_async cell w).2 w' ->
  process_cell_async cell w'
  = (((process_cell_async cell w).1.1.1, true, false), w').
Proof.
  intros Hext. rewrite (process_cell_async_run cell w').
  rewrite (load_grid_cache_extends _ _ _ _ Hext (process_cell_async_cached cell w)).
  reflexivity.
Qed.
End RerunFacts.

Section RunFacts.
Context `{Runtime} `{Provider}.

Lemma gather_cells_cons cell cells w :
  gather_cells (cell :: cells) w =
  ((process_cell_async cell w).1 :: (gather_cells cells (process_cell_async cell w).2).1,
   (gather_cells cells (process_cell_async cell w).2).2).
Proof.
  simpl. unfold mbind, M_bind.
  destruct (process_cell_async cell w) as [outcome w1]. simpl.
  destruct (gather_cells cells w1) as [outcomes w2]. reflexivity.
Qed.

Lemma gather_cells_extends cells w : extends w (gather_cells cells w).2.
Proof.
  revert w. induction cells as [|cell cells IH]; intros w; [apply extends_refl|].
  rewrite gather_cells_cons. simpl.
  eapply extends_trans; [apply process_cell_async_extends | apply IH].
Qed.

Lemma gather_cells_stable cells w w' :
  extends (gather_cells cells w).2 w' ->
  (gather_cells cells w').2 = w' /\
  outcome_results <$> (gather_cells cells w').1
  = outcome_results <$> (gather_cells cells w).1.
Proof.
  revert w w'. induction cells as [|cell cells IH]; intros w w'; [split; reflexivity|].
  rewrite !gather_cells_cons. cbn [fst snd]. intros Hext.
  assert (extends (process_cell_async cell w).2 w') as Hcell.
  { eapply extends_trans; [apply gather_cells_extends | exact Hext]. }
  rewrite (process_cell_async_stable cell w w' Hcell). cbn [fst snd].
  destruct (IH _ _ Hext) as [Hw Hr]. split; [exact Hw|].
  rewrite !fmap_cons, Hr. f_equal.
  destruct (process_cell_async cell w) as [[[results from_cache] made_api_call] w1].
  reflexivity.
Qed.

Lemma enrich_restaurants_async_cons place_id place_ids restaurants w :
  enrich_restaurants_async (place_id :: place_ids) restaurants w =
  match restaurants !! place_id with
  | Some restaurant =>
      let outcome := enrich_restaurant_async place_id restaurant w in
      enrich_restaurants_async place_ids (<[place_id := outcome.1.1.1]> restaurants)
        outcome.2
  | None => enrich_restaurants_async place_ids restaurants w
  end.
Proof.
  simpl. destruct (restaurants !! place_id) as [restaurant|]; [|reflexivity].
  unfold mbind, M_bind.
  destruct (enrich_restaurant_async place_id restaurant w)
    as [[[restaurant' from_cache] made_api_call] w1].
  reflexivity.
Qed.

Lemma enrich_restaurants_async_extends place_ids restaurants w :
  extends w (enrich_restaurants_async place_ids restaurants w).2.
Proof.
  revert restaurants w.
  induction place_ids as [|place_id place_ids IH]; intros restaurants w;
    [apply extends_refl|].
  rewrite enrich_restaurants_async_cons.
  destruct (restaurants !! place_id) as [restaurant|]; [|apply IH].
  eapply extends_trans; [apply enrich_restaurant_async_extends | apply IH].
Qed.

Lemma enrich_restaurants_async_stable place_ids restaurants w w' :
  extends (enrich_restaurants_async place_ids restaurants w).2 w' ->
  enrich_restaurants_async place_ids restaurants w'
  = ((enrich_restaurants_async place_ids restaurants w).1, w').
Proof.
  revert restaurants w w'.
  induction place_ids as [|place_id place_ids IH]; intros restaurants w w';
    [reflexivity|].
  rewrite !enrich_restaurants_async_cons.
  destruct (restaurants !! place_id) as [restaurant|]; [|apply IH].
  cbv zeta. intros Hext.
  assert (extends (enrich_restaurant_async place_id restaurant w).2 w') as Hone.
  { eapply extends_trans; [apply enrich_restaurants_async_extends | exact Hext]. }
  rewrite (enrich_restaurant_async_stable place_id restaurant w w' Hone). simpl.
  apply IH, Hext.
Qed.

Lemma main_async_run cells place_ids w :
  main_async cells place_ids w =
  enrich_restaurants_async place_ids
    (aggregate (outcome_results <$> (gather_cells cells w).1))
    (gather_cells cells w).2.
Proof.
  unfold main_async, scrape_grid_cells_async, mbind, M_bind, mret, M_ret.
  destruct (gather_cells cells w) as [outcomes w1]. reflexivity.
Qed.

(** A second run from the state the first run leaves behind changes
    nothing and computes the same entity map. *)
Lemma main_async_rerun cells place_ids w :
  main_async cells place_ids (main_async cells place_ids w).2
  = main_async cells place_ids w.
Proof.
  rewrite (main_async_run cells place_ids w).
  set (restaurants :=
         aggregate (outcome_results <$> (gather_cells cells w).1)).
  set (w1 := (gather_cells cells w).2).
  set (w2 := (enrich_restaurants_async place_ids restaurants w1).2).
  rewrite (main_async_run cells place_ids w2).
  destruct (gather_cells_stable cells w w2) as [Hw Hr].
  { apply enrich_restaurants_async_extends. }
  rewrite Hw, Hr. fold restaurants.
  rewrite (enrich_restaurants_async_stable place_ids restaurants w1 w2);
    [|apply extends_refl].
  unfold w2. symmetry. apply surjective_pairing.
Qed.
End RunFacts.

(** ** Failed searches and the grid cache *)

Section FailedSearch.
Context `{Runtime} `{Provider}.

Lemma search_by_type_async_failed types cell w error_str :
  search_nearby (trace w) (first_request types cell) = inl error_str ->
  (search_by_type_async types cell w).1 = [].
Proof.
  intros Hfail. unfold search_by_type_async. simpl.
  unfold call_search_nearby, on_exception. run_m. rewrite Hfail.
  destruct (rate_limited error_str); reflexivity.
Qed.

Lemma process_cell_async_failed cell w error_str :
  (load_grid_cache cell w).1 = None ->
  search_nearby (trace w) (first_request ["restaurant"] cell) = inl error_str ->
  (process_cell_async cell w).1 = ([], false, true).
Proof.
  intros Hload Hfail. rewrite process_cell_async_run, Hload. cbv zeta.
  rewrite (search_by_type_async_failed _ _ _ _ Hfail). reflexivity.
Qed.
End FailedSearch.

(** C1, as amended. When the cell has no usable cache record and the
    first page of its search fails, with a rate-limit signal or with any
    other provider error, [process_cell_async] reports an API call with
    no results and writes the empty result list to the grid cache: the
    record is then [Empty], so a later run does not search the cell
    again. *)
Theorem failed_search_is_cached `{Runtime} `{Provider}
    (cell : GridCell) (w : World) (error_str : string) :
  (load_grid_cache cell w).1 = None ->
  search_nearby (trace w) (first_request ["restaurant"] cell) = inl error_str ->
  (process_cell_async cell w).1 = ([], false, true) /\
  grid_record (load_grid_cache cell (process_cell_async cell w).2).1 = Empty.
Proof.
  intros Hload Hfail.
  pose proof (process_cell_async_failed cell w error_str Hload Hfail) as Hout.
  split; [exact Hout|].
  rewrite process_cell_async_cached, Hout. reflexivity.
Qed.

Lemma failed_search_is_cached_witness :
  (@process_cell_async decimal_runtime (failing_provider "503 Service Unavailable")
     unit_cell empty_world).1 = ([], false, true) /\
  grid_record
    (@load_grid_cache decimal_runtime unit_cell
       (@process_cell_async decimal_runtime (failing_provider "503 Service Unavailable")
          unit_cell empty_world).2).1 = Empty.
Proof.
  apply (@failed_search_is_cached decimal_runtime
           (failing_provider "503 Service Unavailable") unit_cell empty_world
           "503 Service Unavailable").
  - reflexivity.
  - reflexivity.
Defined.

(** C1, as stated, fails: after a search that failed with a rate-limit
    signal, and after one that failed with another provider error, the
    record of the cell is [Empty], not [Absent]. *)
Lemma failed_search_not_absent :
  grid_record
    (@load_grid_cache decimal_runtime unit_cell
       (@process_cell_async decimal_runtime
          (failing_provider "429 RESOURCE_EXHAUSTED") unit_cell empty_world).2).1
  <> Absent /\
  grid_record
    (@load_grid_cache decimal_runtime unit_cell
       (@process_cell_async decimal_runtime
          (failing_provider "503 Service Unavailable") unit_cell empty_world).2).1
  <> Absent.
Proof.
  split; rewrite process_cell_async_cached;
    erewrite process_cell_async_failed by reflexivity; discriminate.
Qed.

(** ** The tri-state cache *)

Lemma raw_load_grid_cache_text `{Runtime} (cell : GridCell) (w : World) :
  Raw.load_grid_cache (Raw.Text <$> disk w !! grid_cache_file cell)
  = inr (load_grid_cache cell w).1.
Proof.
  rewrite load_grid_cache_lookup.
  destruct (disk w !! grid_cache_file cell) as [[v| |]|]; try reflexivity.
  destruct v; reflexivity.
Qed.

Lemma raw_load_details_cache_text `{Runtime} (place_id : string) (w : World) :
  Raw.load_details_cache (Raw.Text <$> disk w !! details_cache_file place_id)
  = inr (load_details_cache place_id w).1.
Proof.
  rewrite load_details_cache_lookup.
  destruct (disk w !! details_cache_file place_id) as [[v| |]|]; try reflexivity.
  simpl. destruct (is_empty_marker v); reflexivity.
Qed.

(** A record that does not decode as JSON, or whose reading fails with
    an I/O error, is reported as absent by either loader, and nothing
    is raised. *)
Lemma malformed_text_is_absent (f : file) :
  malformed f ->
  Raw.load_grid_cache (Some (Raw.Text f)) = inr None /\
  Raw.load_details_cache (Some (Raw.Text f)) = inr None.
Proof. intros [-> | ->]; split; reflexivity. Qed.

(** C9. The code departs from the claim on a record whose bytes are not
    valid UTF-8: reading it raises [UnicodeDecodeError], which the
    [except (json.JSONDecodeError, IOError)] clause of neither loader
    catches. The exception leaves the loader, the cell task and the
    loop that awaits the tasks: the run is aborted, nothing is fetched
    again and the record stays as it is. *)
Theorem invalid_utf8_record_aborts_run :
  Raw.load_grid_cache (Some Raw.InvalidUtf8) = inl Raw.UnicodeDecodeError /\
  Raw.load_details_cache (Some Raw.InvalidUtf8) = inl Raw.UnicodeDecodeError /\
  @Raw.process_cell_async decimal_runtime (failing_provider "unreachable")
    unit_cell invalid_utf8_state
  = (inl Raw.UnicodeDecodeError, invalid_utf8_state) /\
  @Raw.gather_cells decimal_runtime (failing_provider "unreachable")
    [unit_cell] invalid_utf8_state
  = (inl Raw.UnicodeDecodeError, invalid_utf8_state).
Proof. repeat split. Qed.

(** C2, as amended. Reading a key after writing it gives the written
    payload back: a non-empty result list is [Present] and the empty
    list is [Empty] for a cell; for a place, non-empty details that do
    not compare equal to the reserved marker [{"_empty": True}] are
    [Present], and [None] or an empty dictionary is [Empty]. The record
    is never [Absent]. *)
Theorem cache_get_after_put `{Runtime}
    (w : World) (cell : GridCell) (results : list json)
    (place_id : string) (details : option (gmap string json)) :
  (forall d, details = Some d -> is_empty_marker (JObj d) = false) ->
  grid_record (load_grid_cache cell (save_grid_cache cell results w).2).1
  = match results with
    | [] => Empty
    | _ :: _ => Present results
    end /\
  details_record
    (load_details_cache place_id (save_details_cache place_id details w).2).1
  = match details with
    | Some d => if truthy (JObj d) then Present d else Empty
    | None => Empty
    end.
Proof.
  intros Hmarker. split.
  - rewrite load_after_save_grid. destruct results; reflexivity.
  - rewrite load_after_save_details. destruct details as [d|]; [|reflexivity].
    rewrite (Hmarker d eq_refl). reflexivity.
Qed.

Lemma cache_get_after_put_witness :
  grid_record
    (@load_grid_cache decimal_runtime unit_cell
       (@save_grid_cache decimal_runtime unit_cell [JObj sample_entity] empty_world).2).1
  = Present [JObj sample_entity] /\
  details_record
    (load_details_cache "p1" (save_details_cache "p1" (Some sample_details) empty_world).2).1
  = (if truthy (JObj sample_details) then Present sample_details else Empty).
Proof.
  apply (@cache_get_after_put decimal_runtime empty_world unit_cell
           [JObj sample_entity] "p1" (Some sample_details)).
  intros d [= <-]. reflexivity.
Defined.

(** C2, as stated, fails: the dictionary [{"_empty": True}] is a
    non-empty payload, and reading it back after writing it gives
    [Empty], not [Present] with that payload. *)
Lemma marker_payload_reads_empty :
  truthy (JObj empty_marker) = true /\
  details_record
    (load_details_cache "p1" (save_details_cache "p1" (Some empty_marker) empty_world).2).1
  = Empty /\
  details_record
    (load_details_cache "p1" (save_details_cache "p1" (Some empty_marker) empty_world).2).1
  <> Present empty_marker.
Proof.
  rewrite load_after_save_details, empty_marker_is_marker.
  split; [reflexivity|]. split; [reflexivity|discriminate].
Qed.

(** ** Merging the cell results *)

Lemma add_result_lookup all_restaurants result place_id :
  add_result all_restaurants result !! place_id =
  match inserted_as place_id result with
  | Some d => Some d
  | None => all_restaurants !! place_id
  end.
Proof.
  unfold inserted_as, occurrence_of, add_result.
  destruct result as [| | | | |l|d]; try reflexivity.
  destruct (d !! "id") as [[| | | |s| |]|]; try reflexivity.
  destruct (decide (s = place_id)) as [->|Hne]; destruct (has_website d);
    try reflexivity.
  - apply lookup_insert_eq.
  - apply lookup_insert_ne, Hne.
Qed.

Lemma foldl_add_result_lookup results all_restaurants place_id :
  foldl add_result all_restaurants results !! place_id =
  match last (omap (inserted_as place_id) results) with
  | Some d => Some d
  | None => all_restaurants !! place_id
  end.
Proof.
  revert all_restaurants.
  induction results as [|result results IH]; intros all_restaurants; [reflexivity|].
  change (foldl add_result all_restaurants (result :: results))
    with (foldl add_result (add_result all_restaurants result) results).
  rewrite IH, add_result_lookup.
  change (omap (inserted_as place_id) (result :: results))
    with (match inserted_as place_id result with
          | Some d => d :: omap (inserted_as place_id) results
          | None => omap (inserted_as place_id) results
          end).
  destruct (inserted_as place_id result) as [d|]; [|reflexivity].
  rewrite last_cons.
  destruct (last (omap (inserted_as place_id) results)); reflexivity.
Qed.

Lemma aggregate_concat results_list :
  aggregate results_list = foldl add_result ∅ (concat results_list).
Proof.
  unfold aggregate. generalize (∅ : gmap string (gmap string json)).
  induction results_list as [|results results_list IH]; intros m; [reflexivity|].
  simpl. rewrite foldl_app. apply IH.
Qed.

Lemma inserted_occurrences place_id results :
  Forall (fun d => has_website d = true) (omap (occurrence_of place_id) results) ->
  omap (inserted_as place_id) results = omap (occurrence_of place_id) results.
Proof.
  induction results as [|result results IH]; [reflexivity|].
  change (omap (inserted_as place_id) (result :: results))
    with (match inserted_as place_id result with
          | Some d => d :: omap (inserted_as place_id) results
          | None => omap (inserted_as place_id) results
          end).
  change (omap (occurrence_of place_id) (result :: results))
    with (match occurrence_of place_id result with
          | Some d => d :: omap (occurrence_of place_id) results
          | None => omap (occurrence_of place_id) results
          end).
  unfold inserted_as at 1.
  destruct (occurrence_of place_id result) as [d|]; [|exact IH].
  intros Hall. apply Forall_cons in Hall as [Hd Hall].
  rewrite Hd, (IH Hall). reflexivity.
Qed.

(** C8. Provided every occurrence of an id in the cell result lists
    passes the website guard of the aggregation loop, as the results of
    the search step do, the merged map holds for that id exactly the
    last occurrence visited, and nothing when the id does not occur; an
    id with a single occurrence maps to that occurrence. *)
Theorem merge_last_writer_wins
    (results_list : list (list json)) (place_id : string) :
  Forall (fun d => has_website d = true) (occurrences place_id results_list) ->
  aggregate results_list !! place_id = last (occurrences place_id results_list) /\
  (forall d, occurrences place_id results_list = [d] ->
             aggregate results_list !! place_id = Some d).
Proof.
  intros Hall.
  assert (aggregate results_list !! place_id
          = last (occurrences place_id results_list)) as Hlast.
  { rewrite aggregate_concat, foldl_add_result_lookup.
    unfold occurrences in *. rewrite (inserted_occurrences _ _ Hall).
    destruct (last (omap (occurrence_of place_id) (concat results_list)));
      [reflexivity | apply lookup_empty]. }
  split; [exact Hlast|].
  intros d Hd. rewrite Hlast, Hd. reflexivity.
Qed.

Lemma merge_last_writer_wins_witness :
  aggregate [[JObj sample_entity_a]; [JObj sample_entity_b]] !! "p1"
  = last (occurrences "p1" [[JObj sample_entity_a]; [JObj sample_entity_b]]) /\
  (forall d,
     occurrences "p1" [[JObj sample_entity_a]; [JObj sample_entity_b]] = [d] ->
     aggregate [[JObj sample_entity_a]; [JObj sample_entity_b]] !! "p1" = Some d).
Proof.
  apply (merge_last_writer_wins [[JObj sample_entity_a]; [JObj sample_entity_b]] "p1").
  repeat constructor.
Defined.

(** Two cells that disagree on the rating of the entity: the later one
    is kept, and the map has a single entry. *)
Example merge_keeps_later_fields :
  aggregate [[JObj sample_entity_a]; [JObj sample_entity_b]] !! "p1"
  = Some sample_entity_b /\
  size (aggregate [[JObj sample_entity_a]; [JObj sample_entity_b]]) = 1.
Proof. split; reflexivity. Qed.

(** ** The frame of the enrichment step *)

Lemma updated_frame restaurant details k :
  (forall d, details = Some d -> d !! k = None) ->
  updated restaurant details !! k = restaurant !! k.
Proof.
  intros Hk. destruct details as [d|]; [|reflexivity]. simpl.
  destruct (truthy (JObj d)); [|reflexivity].
  unfold dict_update. apply lookup_union_r, Hk. reflexivity.
Qed.

(** C10. When the details record of a place, if there is one that
    decodes, was written by [save_details_cache] from the result of a
    detail fetch, enriching a restaurant leaves every key other than
    [reviews], [generativeSummary] and [reviewSummary] as it was. *)
Theorem enrichment_frame `{Runtime} `{Provider}
    (w : World) (place_id : string) (restaurant : gmap string json) (k : string) :
  (forall v, disk w !! details_cache_file place_id = Some (JsonText v) ->
             saved_by_fetch v) ->
  k <> "reviews" -> k <> "generativeSummary" -> k <> "reviewSummary" ->
  (enrich_restaurant_async place_id restaurant w).1.1.1 !! k = restaurant !! k.
Proof.
  intros Hsaved Hr Hg Hs. rewrite enrich_restaurant_async_run.
  destruct (load_details_cache place_id w).1 as [cached|] eqn:Hload.
  - cbn [fst]. apply updated_frame. intros d [= <-].
    rewrite load_details_cache_lookup in Hload.
    destruct (disk w !! details_cache_file place_id) as [[v| |]|] eqn:Hfile;
      try discriminate.
    destruct (Hsaved v eq_refl) as [-> | (response & d & Hd & ->)].
    + rewrite empty_marker_is_marker in Hload. injection Hload as <-.
      apply lookup_empty.
    + rewrite (place_details_not_marker _ _ Hd) in Hload. injection Hload as <-.
      apply (place_details_keys response d k Hd Hr Hg Hs).
  - cbn [fst]. apply updated_frame. intros d Hd.
    destruct (get_place_details_async_result place_id w d Hd) as [response Hresp].
    apply (place_details_keys response d k Hresp Hr Hg Hs).
Qed.

Lemma enrichment_frame_witness :
  (@enrich_restaurant_async decimal_runtime (failing_provider "unreachable")
     "p1" sample_entity warm_world).1.1.1 !! "websiteUri"
  = sample_entity !! "websiteUri".
Proof.
  apply (@enrichment_frame decimal_runtime (failing_provider "unreachable")
           warm_world "p1" sample_entity "websiteUri").
  - intros v Hv. injection Hv as <-. right.
    exists sample_response, sample_details. split; reflexivity.
  - discriminate.
  - discriminate.
  - discriminate.
Defined.

(** ** The reviews a detail fetch keeps *)

Lemma insert_desc_perm x l : insert_desc x l ≡ₚ x :: l.
Proof.
  induction l as [|y l IH]; [reflexivity|]. simpl.
  destruct (get_publish_time y <=? get_publish_time x)%Z; [reflexivity|].
  rewrite IH. apply Permutation_swap.
Qed.

Lemma sorted_reviews_perm l : sorted_reviews l ≡ₚ l.
Proof.
  induction l as [|x l IH]; [reflexivity|]. unfold sorted_reviews in *. simpl.
  rewrite insert_desc_perm, IH. reflexivity.
Qed.

Lemma insert_desc_sorted x l :
  StronglySorted newer_or_equal_key l ->
  StronglySorted newer_or_equal_key (insert_desc x l).
Proof.
  induction l as [|y l IH]; intros Hs.
  - repeat constructor.
  - simpl. apply StronglySorted_inv in Hs as [Hl Hy].
    destruct (get_publish_time y <=? get_publish_time x)%Z eqn:Hle.
    + apply Z.leb_le in Hle. constructor; [constructor; assumption|].
      constructor; [exact Hle|].
      eapply Forall_impl; [exact Hy|]. unfold newer_or_equal_key. intros z Hz. lia.
    + apply Z.leb_gt in Hle. constructor; [apply IH, Hl|].
      rewrite insert_desc_perm. constructor; [|exact Hy].
      unfold newer_or_equal_key. lia.
Qed.

Lemma sorted_reviews_sorted l :
  StronglySorted newer_or_equal_key (sorted_reviews l).
Proof.
  induction l as [|x l IH]; [constructor|].
  unfold sorted_reviews in *. simpl. apply insert_desc_sorted, IH.
Qed.

Lemma distinct_keys_strict l :
  NoDup (get_publish_time <$> l) ->
  StronglySorted newer_or_equal_key l -> StronglySorted newer_key l.
Proof.
  induction l as [|x l IH]; intros Hnd Hs; [constructor|].
  rewrite fmap_cons in Hnd. apply NoDup_cons in Hnd as [Hx Hnd].
  apply StronglySorted_inv in Hs as [Hl Hall].
  constructor; [apply IH; assumption|].
  apply Forall_forall. intros y Hy.
  rewrite Forall_forall in Hall. specialize (Hall y Hy).
  assert (get_publish_time y <> get_publish_time x) as Hne.
  { intros Heq. apply Hx. rewrite <- Heq. apply list_elem_of_fmap.
    exists y. split; [reflexivity|]. exact Hy. }
  unfold newer_key, newer_or_equal_key in *. lia.
Qed.

Lemma sorted_reviews_strict l :
  NoDup (get_publish_time <$> l) -> StronglySorted newer_key (sorted_reviews l).
Proof.
  intros Hnd. apply distinct_keys_strict; [|apply sorted_reviews_sorted].
  rewrite sorted_reviews_perm. exact Hnd.
Qed.

Lemma truthy_of_lookup (d : gmap string json) k v :
  d !! k = Some v -> truthy (JObj d) = true.
Proof.
  intros Hk. unfold truthy. destruct (size d) eqn:Hsize; [|reflexivity].
  apply map_size_empty_iff in Hsize. subst d. rewrite lookup_empty in Hk.
  discriminate.
Qed.

Lemma returned_reviews_kept `{Runtime} response :
  returned_reviews response = review_dict <$> kept_reviews response.
Proof.
  unfold returned_reviews, place_details.
  match goal with |- context [truthy (JObj ?m)] => set (details := m) end.
  assert (details !! "reviews" =
          match reviews response with
          | [] => None
          | _ :: _ => Some (JArr (review_dict <$> kept_reviews response))
          end) as Hlookup.
  { unfold details. rewrite !set_if_lookup_ne by discriminate.
    destruct (reviews response); [apply lookup_empty | apply lookup_insert_eq]. }
  destruct (reviews response) as [|review rest] eqn:Hreviews.
  - assert (kept_reviews response = []) as ->.
    { unfold kept_reviews. rewrite Hreviews. reflexivity. }
    destruct (truthy (JObj details)); [|reflexivity]. rewrite Hlookup. reflexivity.
  - rewrite (truthy_of_lookup _ _ _ Hlookup), Hlookup. reflexivity.
Qed.

(** C7, as amended. For every detail response whose reviews have
    pairwise distinct sort keys (the whole seconds of the publish time,
    0 without one), the returned reviews are the conversions of
    [min n 10] reviews of the response, in strictly descending key
    order, and every review left out has a smaller key than every
    review kept. *)
Theorem reviews_most_recent_first `{Runtime} (response : GetPlaceResponse) :
  NoDup (get_publish_time <$> reviews response) ->
  returned_reviews response = review_dict <$> kept_reviews response /\
  length (kept_reviews response) = Nat.min (length (reviews response)) MAX_REVIEWS /\
  StronglySorted newer_key (kept_reviews response) /\
  exists dropped,
    reviews response ≡ₚ kept_reviews response ++ dropped /\
    forall a b, a ∈ kept_reviews response -> b ∈ dropped -> newer_key a b.
Proof.
  intros Hnd. pose proof (sorted_reviews_strict _ Hnd) as Hsorted.
  rewrite <- (take_drop MAX_REVIEWS (sorted_reviews (reviews response))) in Hsorted.
  apply StronglySorted_app in Hsorted as (Hcross & Hkept & _).
  split; [apply returned_reviews_kept|]. split; [|split; [exact Hkept|]].
  - unfold kept_reviews. rewrite length_take, (Permutation_length (sorted_reviews_perm _)).
    apply Nat.min_comm.
  - exists (drop MAX_REVIEWS (sorted_reviews (reviews response))). split; [|exact Hcross].
    unfold kept_reviews. rewrite take_drop. symmetry. apply sorted_reviews_perm.
Qed.

Lemma reviews_most_recent_first_witness :
  @returned_reviews decimal_runtime fifteen_reviews_response
  = @review_dict decimal_runtime <$> kept_reviews fifteen_reviews_response /\
  length (kept_reviews fifteen_reviews_response)
  = Nat.min (length (reviews fifteen_reviews_response)) MAX_REVIEWS /\
  StronglySorted newer_key (kept_reviews fifteen_reviews_response) /\
  exists dropped,
    reviews fifteen_reviews_response ≡ₚ kept_reviews fifteen_reviews_response ++ dropped /\
    forall a b, a ∈ kept_reviews fifteen_reviews_response -> b ∈ dropped -> newer_key a b.
Proof.
  apply (@reviews_most_recent_first decimal_runtime fifteen_reviews_response).
  apply (bool_decide_unpack _). vm_compute. exact I.
Defined.

(** Of fifteen reviews in a shuffled order, the ten most recent are
    kept, most recent first. *)
Example fifteen_reviews_kept :
  get_publish_time <$> kept_reviews fifteen_reviews_response
  = [15; 14; 13; 12; 11; 10; 9; 8; 7; 6]%Z.
Proof. reflexivity. Qed.

(** C7, as stated, fails: two reviews with distinct publish times that
    fall in the same second are returned in the order of the response,
    the earlier one first. *)
Lemma same_second_reviews_unsorted :
  NoDup (r_publish_time <$> reviews same_second_response) /\
  kept_reviews same_second_response = [review_at 100 1; review_at 100 5] /\
  ~ StronglySorted (fun a b => (publish_instant b < publish_instant a)%Z)
      (kept_reviews same_second_response).
Proof.
  split; [|split; [reflexivity|]].
  - simpl. repeat constructor.
    + intros Hin. apply list_elem_of_singleton in Hin. discriminate.
    + intros Hin. inversion Hin.
  - intros Hsorted. apply StronglySorted_inv in Hsorted as [_ Hall].
    apply Forall_inv in Hall. vm_compute in Hall. discriminate.
Qed.

(** ** Grid generation *)

Lemma lattice_cells bounds grid_size cell :
  In cell (lattice bounds grid_size) ->
  exists i j, (i < grid_size)%nat /\ (j < grid_size)%nat /\
    cell = grid_cell bounds
             ((b_lat_high bounds - b_lat_low bounds) / inject_Z (Z.of_nat grid_size))
             ((b_lon_high bounds - b_lon_low bounds) / inject_Z (Z.of_nat grid_size))
             i j.
Proof.
  unfold lattice. intros Hin. apply in_flat_map in Hin as (i & Hi & Hin).
  apply in_map_iff in Hin as (j & <- & Hj).
  apply in_seq in Hi. apply in_seq in Hj.
  exists i, j. split; [lia|]. split; [lia | reflexivity].
Qed.

Lemma lattice_length bounds grid_size :
  length (lattice bounds grid_size) = (grid_size * grid_size)%nat.
Proof.
  unfold lattice. cbv zeta.
  assert (forall (g : nat -> nat -> GridCell) (rows : list nat),
            length (flat_map (fun i => map (g i) (seq 0 grid_size)) rows)
            = (length rows * grid_size)%nat) as Hrows.
  { intros g rows. induction rows as [|i rows IH]; [reflexivity|].
    simpl. rewrite length_app, IH, length_map, length_seq. reflexivity. }
  rewrite Hrows, length_seq. reflexivity.
Qed.

Lemma filter_all {A} (f : A -> bool) (l : list A) :
  (forall x, In x l -> f x = true) -> List.filter f l = l.
Proof.
  induction l as [|x l IH]; intros Hall; [reflexivity|].
  simpl. rewrite (Hall x (or_introl eq_refl)). f_equal.
  apply IH. intros y Hy. apply Hall. right. exact Hy.
Qed.

Section SquareBoundary.
Local Open Scope Q_scope.

Lemma Qle_bool_true x y : x <= y -> Qle_bool x y = true.
Proof. intros Hle. apply Qle_bool_iff, Hle. Qed.

Lemma Qle_bool_false x y : y < x -> Qle_bool x y = false.
Proof.
  intros Hlt. destruct (Qle_bool x y) eqn:Hb; [|reflexivity].
  apply Qle_bool_iff in Hb. lra.
Qed.

Ltac decide_Qle :=
  repeat match goal with
  | |- context [Qle_bool ?a ?b] =>
      first [ rewrite (Qle_bool_true a b) by (simpl; nra)
            | rewrite (Qle_bool_false a b) by (simpl; nra) ]
  end.

(** A point strictly inside the box is in the interior of the box
    polygon: it is on none of the four sides, and of the sides only the
    eastern one crosses the ray to its right. *)
Lemma box_interior bounds x y :
  b_lon_low bounds < x -> x < b_lon_high bounds ->
  b_lat_low bounds < y -> y < b_lat_high bounds ->
  Planar.interior (box_polygon bounds) (x, y) = true.
Proof.
  destruct bounds as [lat_lo lat_hi lon_lo lon_hi]. simpl. intros Hx1 Hx2 Hy1 Hy2.
  unfold Planar.interior, Planar.on_boundary, box_polygon, cell_polygon, Planar.edges.
  simpl.
  unfold Planar.on_segment, Planar.crosses_ray, Planar.between, Planar.Qltb, Planar.cross.
  simpl. decide_Qle. simpl. rewrite ?andb_false_r. reflexivity.
Qed.

Lemma center_inside (lo hi s I N : Q) :
  lo < hi -> 0 < N -> s == (hi - lo) / N -> 0 <= I -> I + 1 <= N ->
  lo < (lo + I * s + (lo + (I + 1) * s)) / 2 /\
  (lo + I * s + (lo + (I + 1) * s)) / 2 < hi.
Proof.
  intros Hlohi HN Hs HI HIN.
  assert (s * N == hi - lo) as HsN by (rewrite Hs; field; lra).
  assert (0 < s) as Hspos.
  { rewrite Hs. apply Qlt_shift_div_l; lra. }
  assert (0 <= I * s) as HIs by (apply Qmult_le_0_compat; lra).
  assert ((I + 1) * s <= N * s) as Hle by (apply Qmult_le_compat_r; lra).
  split.
  - apply Qlt_shift_div_l; lra.
  - apply Qlt_shift_div_r; lra.
Qed.

Lemma index_bounds (i n : nat) :
  (i < n)%nat ->
  0 < inject_Z (Z.of_nat n) /\ 0 <= inject_Z (Z.of_nat i) /\
  inject_Z (Z.of_nat i) + 1 <= inject_Z (Z.of_nat n) /\
  inject_Z (Z.of_nat (i + 1)) == inject_Z (Z.of_nat i) + 1.
Proof.
  intros Hlt. repeat split.
  - change 0 with (inject_Z 0). rewrite <- Zlt_Qlt. lia.
  - change 0 with (inject_Z 0). rewrite <- Zle_Qle. lia.
  - change 1 with (inject_Z 1). rewrite <- inject_Z_plus, <- Zle_Qle. lia.
  - change 1 with (inject_Z 1). rewrite <- inject_Z_plus.
    rewrite Nat2Z.inj_add. reflexivity.
Qed.

Lemma box_cell_overlaps bounds grid_size cell :
  b_lat_low bounds < b_lat_high bounds ->
  b_lon_low bounds < b_lon_high bounds ->
  In cell (lattice bounds grid_size) ->
  @cell_overlaps_manhattan Planar.shapely (box_polygon bounds) cell = true.
Proof.
  intros Hlat Hlon Hin.
  apply lattice_cells in Hin as (i & j & Hi & Hj & ->).
  destruct (index_bounds i grid_size Hi) as (HN & HI & HIN & HI1).
  destruct (index_bounds j grid_size Hj) as (_ & HJ & HJN & HJ1).
  unfold cell_overlaps_manhattan, cell_center, point_in_manhattan, grid_cell.
  cbn [lat_low lat_high lon_low lon_high contains touches Planar.shapely].
  rewrite box_interior; [reflexivity| | | |].
  - rewrite HJ1. eapply center_inside; eauto. reflexivity.
  - rewrite HJ1. eapply center_inside; eauto. reflexivity.
  - rewrite HI1. eapply center_inside; eauto. reflexivity.
  - rewrite HI1. eapply center_inside; eauto. reflexivity.
Qed.
End SquareBoundary.

(** ** Cells that meet the boundary *)

Section RectangleFacts.
Local Open Scope Q_scope.

Lemma on_segment_intro (a b p : point) :
  Planar.cross a b p == 0 ->
  (fst a <= fst p /\ fst p <= fst b) \/ (fst b <= fst p /\ fst p <= fst a) ->
  (snd a <= snd p /\ snd p <= snd b) \/ (snd b <= snd p /\ snd p <= snd a) ->
  Planar.on_segment p (a, b) = true.
Proof.
  intros Hcross Hx Hy. unfold Planar.on_segment, Planar.between.
  apply andb_true_intro. split; [apply andb_true_intro; split|].
  - apply Qeq_bool_iff, Hcross.
  - apply orb_true_iff.
    destruct Hx as [[H1 H2]|[H1 H2]]; [left|right];
      apply andb_true_intro; split; apply Qle_bool_iff; assumption.
  - apply orb_true_iff.
    destruct Hy as [[H1 H2]|[H1 H2]]; [left|right];
      apply andb_true_intro; split; apply Qle_bool_iff; assumption.
Qed.

(** In the executable model the polygon of a rectangle covers exactly
    what it should: every point between the edges of the rectangle is
    inside it or on one of its sides. *)
Lemma rectangle_covers (cell : GridCell) (pt : point) :
  lon_low cell < lon_high cell -> lat_low cell < lat_high cell ->
  in_rectangle cell pt ->
  @covers Planar.shapely (rectangle_ring cell) pt = true.
Proof.
  destruct cell as [y0 x0 y1 x1]. destruct pt as [x y].
  unfold in_rectangle, covers, rectangle_ring.
  cbn [lat_low lat_high lon_low lon_high fst snd contains touches Planar.shapely].
  intros Hx01 Hy01 (Hx0 & Hx1 & Hy0 & Hy1).
  assert (forall e,
            In e (Planar.edges [(x0, y0); (x1, y0); (x1, y1); (x0, y1); (x0, y0)]) ->
            Planar.on_segment (x, y) e = true ->
            Planar.interior [(x0, y0); (x1, y0); (x1, y1); (x0, y1); (x0, y0)] (x, y)
            || Planar.on_boundary [(x0, y0); (x1, y0); (x1, y1); (x0, y1); (x0, y0)] (x, y)
            = true) as Hside.
  { intros e Hin Hon. apply orb_true_iff. right.
    apply existsb_exists. exists e. split; assumption. }
  destruct (Qle_lt_or_eq _ _ Hy0) as [Hy0'|Hy0'].
  2:{ apply (Hside ((x0, y0), (x1, y0))); [simpl; tauto|].
      apply on_segment_intro; cbn [fst snd].
      - unfold Planar.cross. cbn [fst snd]. nra.
      - left. split; assumption.
      - left. split; [exact Hy0 | lra]. }
  destruct (Qle_lt_or_eq _ _ Hy1) as [Hy1'|Hy1'].
  2:{ apply (Hside ((x1, y1), (x0, y1))); [simpl; tauto|].
      apply on_segment_intro; cbn [fst snd].
      - unfold Planar.cross. cbn [fst snd]. nra.
      - right. split; assumption.
      - left. split; [lra | exact Hy1]. }
  destruct (Qle_lt_or_eq _ _ Hx0) as [Hx0'|Hx0'].
  2:{ apply (Hside ((x0, y1), (x0, y0))); [simpl; tauto|].
      apply on_segment_intro; cbn [fst snd].
      - unfold Planar.cross. cbn [fst snd]. nra.
      - left. split; [exact Hx0 | lra].
      - right. split; assumption. }
  destruct (Qle_lt_or_eq _ _ Hx1) as [Hx1'|Hx1'].
  2:{ apply (Hside ((x1, y0), (x1, y1))); [simpl; tauto|].
      apply on_segment_intro; cbn [fst snd].
      - unfold Planar.cross. cbn [fst snd]. nra.
      - left. split; [lra | exact Hx1].
      - left. split; assumption. }
  apply orb_true_iff. left.
  apply (box_interior {| b_lat_low := y0; b_lat_high := y1;
                         b_lon_low := x0; b_lon_high := x1 |} x y); assumption.
Qed.

(** In the executable model a polygon with a vertex in the rectangle of
    a cell intersects the polygon of that rectangle. *)
Lemma vertex_in_rectangle_intersects (cell : GridCell) (polygon : ring) (vertex : point) :
  lon_low cell < lon_high cell -> lat_low cell < lat_high cell ->
  In vertex polygon -> in_rectangle cell vertex ->
  @intersects Planar.shapely (rectangle_ring cell) polygon = true.
Proof.
  intros Hlon Hlat Hin Hvertex.
  pose proof (rectangle_covers cell vertex Hlon Hlat Hvertex) as Hcovers.
  unfold covers in Hcovers. cbn [contains touches Planar.shapely] in Hcovers.
  cbn [intersects Planar.shapely]. unfold Planar.rings_intersect.
  apply orb_true_iff. right. apply existsb_exists. exists vertex.
  split; [exact Hin|]. unfold Planar.in_closed. rewrite orb_comm. exact Hcovers.
Qed.
End RectangleFacts.

(** C5. Shapely's predicates are taken for what they mean as sets of
    points: the polygon built from the corners of the cell covers the
    points of the cell's rectangle, and intersects a polygon with which
    it shares a point. Then a cell of the lattice whose rectangle has a
    point in or on the boundary polygon is in the generated list,
    whatever the polygon does at the centre and the corners of the
    cell. *)
Theorem intersecting_cell_is_included `{Shapely}
    (polygon : ring) (bounds : Bounds) (grid_size : nat) (cell : GridCell)
    (pt : point) :
  point_set_semantics cell polygon ->
  In cell (lattice bounds grid_size) ->
  in_rectangle cell pt -> covers polygon pt = true ->
  exists cells,
    generate_grid_cells polygon bounds grid_size = Some cells /\ In cell cells.
Proof.
  intros [Hrectangle Hshare] Hin Hpt Hpolygon.
  destruct grid_size as [|n]; [destruct Hin|].
  eexists. split; [reflexivity|].
  apply filter_In. split; [exact Hin|].
  unfold cell_overlaps_manhattan. destruct (cell_center cell) as [center_lat center_lon].
  destruct (point_in_manhattan polygon center_lat center_lon); [reflexivity|].
  destruct (existsb _ (cell_corners cell)); [reflexivity|].
  apply (Hshare pt); [apply Hrectangle, Hpt | exact Hpolygon].
Qed.

Lemma intersecting_cell_is_included_witness :
  (let '(center_lat, center_lon) := cell_center sliver_cell in
   @point_in_manhattan Planar.shapely sliver center_lat center_lon = false) /\
  existsb (fun '(lat, lon) => @point_in_manhattan Planar.shapely sliver lat lon)
    (cell_corners sliver_cell) = false /\
  exists cells,
    @generate_grid_cells Planar.shapely sliver sliver_bounds 2 = Some cells /\
    In sliver_cell cells.
Proof.
  split; [vm_compute; reflexivity|]. split; [vm_compute; reflexivity|].
  apply (@intersecting_cell_is_included Planar.shapely sliver sliver_bounds 2 sliver_cell
           (1 # 10, 4 # 10)%Q).
  - split.
    + intros pt Hpt. apply rectangle_covers; [reflexivity | reflexivity | exact Hpt].
    + intros pt _ _.
      apply (vertex_in_rectangle_intersects sliver_cell sliver (1 # 10, 4 # 10)%Q);
        [reflexivity | reflexivity | left; reflexivity|].
      repeat split; apply Qle_bool_imp_le; reflexivity.
  - left. reflexivity.
  - repeat split; apply Qle_bool_imp_le; reflexivity.
  - vm_compute. reflexivity.
Defined.


Lemma flat_map_lookup {A B} (f : A -> list B) (rows : list A) (n i j : nat) (r : A) :
  (forall r', length (f r') = n) ->
  rows !! i = Some r -> (j < n)%nat ->
  flat_map f rows !! (i * n + j)%nat = f r !! j.
Proof.
  intros Hlen. revert i. induction rows as [|r0 rows IH]; intros i Hrow Hj;
    [discriminate|].
  simpl. destruct i as [|i].
  - injection Hrow as ->. simpl. apply lookup_app_l. rewrite Hlen. exact Hj.
  - simpl in Hrow. rewrite lookup_app_r by (rewrite Hlen; lia).
    rewrite Hlen. replace (S i * n + j - n)%nat with (i * n + j)%nat by lia.
    apply IH; assumption.
Qed.

Lemma lattice_lookup bounds grid_size i j :
  (i < grid_size)%nat -> (j < grid_size)%nat ->
  lattice bounds grid_size !! (i * grid_size + j)%nat
  = Some (grid_cell bounds
            ((b_lat_high bounds - b_lat_low bounds) / inject_Z (Z.of_nat grid_size))
            ((b_lon_high bounds - b_lon_low bounds) / inject_Z (Z.of_nat grid_size))
            i j).
Proof.
  intros Hi Hj. unfold lattice. cbv zeta.
  rewrite (flat_map_lookup _ _ grid_size i j i).
  - change (map ?f ?l) with (f <$> l). rewrite list_lookup_fmap, lookup_seq_lt by exact Hj.
    reflexivity.
  - intros r'. rewrite length_map, length_seq. reflexivity.
  - rewrite lookup_seq_lt by exact Hi. reflexivity.
  - exact Hj.
Qed.

Lemma grid_cell_is_lattice_cell bounds grid_size i j :
  (0 < grid_size)%nat ->
  is_lattice_cell bounds grid_size i j
    (grid_cell bounds
       ((b_lat_high bounds - b_lat_low bounds) / inject_Z (Z.of_nat grid_size))
       ((b_lon_high bounds - b_lon_low bounds) / inject_Z (Z.of_nat grid_size))
       i j).
Proof.
  intros Hpos. unfold is_lattice_cell, grid_cell. cbv zeta.
  cbn [lat_low lat_high lon_low lon_high].
  assert (~ inject_Z (Z.of_nat grid_size) == 0)%Q as Hn.
  { unfold inject_Z, Qeq. simpl. lia. }
  replace (Z.of_nat (i + 1)) with (Z.of_nat i + 1)%Z by lia.
  replace (Z.of_nat (j + 1)) with (Z.of_nat j + 1)%Z by lia.
  unfold inject_Z in *. repeat split; field; exact Hn.
Qed.

(** C4. When the boundary polygon is the square of the bounding box
    itself, grid generation at resolution [N >= 1] returns [N * N]
    cells, and for every row [i] and column [j] below [N] the cell at
    position [i * N + j] of the list is the cell in row [i] and column
    [j] of the [N] by [N] lattice over the box: no cell of the lattice
    is left out. *)
Theorem square_boundary_keeps_all_cells (bounds : Bounds) (grid_size : nat) :
  (b_lat_low bounds < b_lat_high bounds)%Q ->
  (b_lon_low bounds < b_lon_high bounds)%Q ->
  (0 < grid_size)%nat ->
  exists cells,
    @generate_grid_cells Planar.shapely (square_boundary bounds) bounds grid_size
    = Some cells /\
    length cells = (grid_size * grid_size)%nat /\
    forall i j, (i < grid_size)%nat -> (j < grid_size)%nat ->
      exists cell,
        cells !! (i * grid_size + j)%nat = Some cell /\
        is_lattice_cell bounds grid_size i j cell.
Proof.
  intros Hlat Hlon Hpos. exists (lattice bounds grid_size).
  split; [|split; [apply lattice_length|]].
  - destruct grid_size as [|n]; [lia|].
    unfold generate_grid_cells. f_equal. apply filter_all.
    intros cell Hin. apply (box_cell_overlaps bounds (S n) cell Hlat Hlon Hin).
  - intros i j Hi Hj. eexists. split; [apply lattice_lookup; assumption|].
    apply grid_cell_is_lattice_cell, Hpos.
Qed.

Lemma square_boundary_keeps_all_cells_witness :
  exists cells,
    @generate_grid_cells Planar.shapely (square_boundary MANHATTAN_BOUNDS)
      MANHATTAN_BOUNDS 2
    = Some cells /\
    length cells = (2 * 2)%nat /\
    forall i j, (i < 2)%nat -> (j < 2)%nat ->
      exists cell,
        cells !! (i * 2 + j)%nat = Some cell /\
        is_lattice_cell MANHATTAN_BOUNDS 2 i j cell.
Proof.
  apply (square_boundary_keeps_all_cells MANHATTAN_BOUNDS 2).
  - reflexivity.
  - reflexivity.
  - lia.
Defined.

(** ** The search radius *)

Section Radius.
Local Open Scope R_scope.

(** Below the cap, the radius is the diagonal of the cell plus the
    buffer, rounded down. *)
Lemma radius_meters_bounds cell :
  cell_diagonal cell + 100 < 50000 ->
  cell_diagonal cell + 99 < IZR (radius_meters cell) <= cell_diagonal cell + 100.
Proof.
  intros Hcap. unfold radius_meters, py_int.
  pose proof (sqrt_pos (lat_meters cell ^ 2 + lon_meters cell ^ 2)) as Hpos.
  fold (cell_diagonal cell) in Hpos.
  destruct (Rle_dec 0 (cell_diagonal cell + 100)) as [_|Hneg]; [|lra].
  destruct (base_Int_part (cell_diagonal cell + 100)) as [Hle Hgt].
  rewrite Z.min_l.
  - lra.
  - apply Z.lt_le_incl, lt_IZR. lra.
Qed.

Lemma equator_lat_meters : lat_meters equator_cell = 1110.
Proof.
  unfold lat_meters.
  rewrite (Qeq_eqR (lat_high equator_cell - lat_low equator_cell) (1 # 100))
    by reflexivity.
  unfold Q2R. simpl. lra.
Qed.

Lemma equator_lon_meters : lon_meters equator_cell = 1110.
Proof.
  unfold lon_meters.
  rewrite (Qeq_eqR (fst (cell_center equator_cell)) 0) by reflexivity.
  rewrite (Qeq_eqR (lon_high equator_cell - lon_low equator_cell) (1 # 100))
    by reflexivity.
  replace (radians (Q2R 0)) with 0 by (unfold radians, Q2R; simpl; lra).
  rewrite cos_0. unfold Q2R. simpl. lra.
Qed.

Lemma equator_diagonal : 1569 < cell_diagonal equator_cell < 1570.
Proof.
  unfold cell_diagonal. rewrite equator_lat_meters, equator_lon_meters.
  split.
  - rewrite <- (sqrt_pow2 1569) by lra. apply sqrt_lt_1_alt. lra.
  - rewrite <- (sqrt_pow2 1570) by lra. apply sqrt_lt_1_alt. split; lra.
Qed.

Lemma equator_radius : radius_meters equator_cell = 1669%Z.
Proof.
  pose proof equator_diagonal as [Hlo Hhi].
  destruct (radius_meters_bounds equator_cell) as [Hgt Hle]; [lra|].
  assert (1668 < IZR (radius_meters equator_cell) < 1670) as [H1 H2] by lra.
  apply lt_IZR in H1. apply lt_IZR in H2. lia.
Qed.
End Radius.

(** C6, as amended. For the square cell of 0.01 degrees centred on the
    equator the search radius is 1669 metres: the whole diagonal of the
    cell, twice its half, plus the buffer of 100 metres, rounded down. *)
Theorem equator_radius_is_diagonal_plus_buffer :
  radius_meters equator_cell = 1669%Z /\
  (2 * half_diagonal equator_cell + 99 < IZR (radius_meters equator_cell)
   <= 2 * half_diagonal equator_cell + 100)%R.
Proof.
  split; [apply equator_radius|].
  pose proof equator_diagonal as [Hlo Hhi].
  destruct (radius_meters_bounds equator_cell) as [Hgt Hle]; [lra|].
  unfold half_diagonal. lra.
Qed.

(** C6, as stated, fails: the radius of that cell, 1669 metres, is more
    than twice the half diagonal, which is less than 785 metres, and is
    not within ten per cent of it even with the buffer allowed for. *)
Lemma equator_radius_not_half_diagonal :
  ~ about_half_diagonal equator_cell (radius_meters equator_cell).
Proof.
  unfold about_half_diagonal, half_diagonal. rewrite equator_radius.
  pose proof equator_diagonal as [Hlo Hhi]. lra.
Qed.

(** * Further properties of the search and detail steps *)

Section SearchFacts.
Context `{Runtime} `{Provider}.

Lemma api_calls_emit_call request w :
  api_calls (emit (EvSearchNearby request) w).2 = S (api_calls w).
Proof. reflexivity. Qed.

Lemma api_calls_sleep seconds w : api_calls (sleep seconds w).2 = api_calls w.
Proof. reflexivity. Qed.

Lemma on_exception_api_calls error_str w :
  api_calls (on_exception error_str w).2 = api_calls w.
Proof. unfold on_exception. destruct (rate_limited error_str); reflexivity. Qed.

Lemma search_pages_api_calls n request acc w :
  (api_calls (search_pages n request acc w).2 <= api_calls w + n)%nat /\
  (api_calls w + Nat.min 1 n <= api_calls (search_pages n request acc w).2)%nat.
Proof.
  revert request acc w. induction n as [|n IH]; intros request acc w.
  - simpl. unfold mret, M_ret. simpl. lia.
  - simpl. unfold call_search_nearby. run_m.
    destruct (search_nearby (trace w) request) as [error_str|response].
    + match goal with |- context [on_exception error_str ?w0] =>
        pose proof (on_exception_api_calls error_str w0) as Hexc;
        destruct (on_exception error_str w0) as [u w1] end.
      simpl in *. unfold api_calls in *. simpl in *. lia.
    + destruct (response_token response) as [tok|].
      * run_m.
        match goal with |- context [search_pages n ?r ?a ?w0] =>
          destruct (IH r a w0) as [Hup Hlow]; revert Hup Hlow;
          generalize (search_pages n r a w0) end.
        intros [results w1]. unfold api_calls. simpl. lia.
      * unfold api_calls. simpl. lia.
Qed.

Lemma search_pages_results n request acc w :
  exists added,
    (search_pages n request acc w).1 = (acc ++ added)%list /\
    Forall well_formed_result added.
Proof.
  revert request acc w. induction n as [|n IH]; intros request acc w.
  - exists []. split; [symmetry; apply app_nil_r | constructor].
  - simpl. unfold call_search_nearby. run_m.
    destruct (search_nearby (trace w) request) as [error_str|response].
    + exists []. split; [|constructor].
      destruct (on_exception error_str _) as [u w1]. simpl.
      symmetry. apply app_nil_r.
    + assert (Forall well_formed_result (page_results response)) as Hpage.
      { unfold page_results. apply Forall_fmap, Forall_forall.
        intros d Hd. apply list_elem_of_In, filter_In in Hd as [_ Hd].
        exists d. split; [reflexivity | exact Hd]. }
      destruct (response_token response) as [tok|].
      * run_m.
        match goal with |- context [search_pages n ?r ?a ?w0] =>
          destruct (IH r a w0) as (added & Heq & Hadded) end.
        exists (page_results response ++ added)%list. split.
        { rewrite Heq. symmetry. apply app_assoc. }
        apply Forall_app. split; assumption.
      * exists (page_results response). split; [reflexivity | exact Hpage].
Qed.
End SearchFacts.

Lemma set_if_lookup_eq k o (d : gmap string json) :
  set_if k o d !! k = match o with Some v => Some v | None => d !! k end.
Proof. destruct o as [v|]; [apply lookup_insert_eq | reflexivity]. Qed.

Lemma has_website_convert place :
  has_website (_convert_place_to_dict place) = website_present place.
Proof.
  unfold has_website, dict_get, _convert_place_to_dict, website_present. cbv zeta.
  rewrite !(set_if_lookup_ne _ _ _ "website_uri") by discriminate.
  rewrite !(set_if_lookup_ne _ _ _ "websiteUri") by discriminate.
  rewrite set_if_lookup_eq.
  rewrite !(set_if_lookup_ne _ _ _ "websiteUri") by discriminate.
  rewrite !lookup_empty.
  destruct (p_website_uri place) as [uri|]; simpl; [apply orb_false_r | reflexivity].
Qed.

Lemma filter_fmap_comm {A B} (f : A -> B) (keep : B -> bool) (l : list A) :
  List.filter keep (f <$> l) = f <$> List.filter (fun x => keep (f x)) l.
Proof.
  induction l as [|x l IH]; [reflexivity|].
  rewrite fmap_cons. cbn [List.filter].
  destruct (keep (f x)); [rewrite fmap_cons|]; rewrite IH; reflexivity.
Qed.

(** X1. A cell search makes at least one and at most three provider
    calls, whatever the provider answers, and leaves the disk alone. *)
Theorem search_call_budget `{Provider}
    (types : list string) (cell : GridCell) (w : World) :
  (api_calls w + 1 <= api_calls (search_by_type_async types cell w).2
   <= api_calls w + 3)%nat /\
  disk (search_by_type_async types cell w).2 = disk w.
Proof.
  split; [|apply search_by_type_async_disk].
  unfold search_by_type_async.
  destruct (search_pages_api_calls max_pages (first_request types cell) [] w)
    as [Hup Hlow].
  unfold max_pages in *. change (Nat.min 1 3) with 1%nat in Hlow. lia.
Qed.

(** X2. Every result of a cell search is a dictionary that passes the
    website test of the aggregation loop. *)
Theorem search_results_have_website `{Provider}
    (types : list string) (cell : GridCell) (w : World) :
  Forall well_formed_result (search_by_type_async types cell w).1.
Proof.
  unfold search_by_type_async.
  destruct (search_pages_results max_pages (first_request types cell) [] w)
    as (added & Heq & Hadded).
  rewrite Heq. exact Hadded.
Qed.

(** X3. The results of a page are the conversions, in order, of exactly
    the places to which the provider gave a non-empty website; each
    keeps the id of its place. *)
Theorem page_results_by_website (response : SearchNearbyResponse) :
  page_results response
  = (fun place => JObj (_convert_place_to_dict place))
      <$> List.filter website_present (places response) /\
  Forall (fun place => _convert_place_to_dict place !! "id" = JStr <$> p_id place)
         (places response).
Proof.
  split.
  - unfold page_results. rewrite filter_fmap_comm, <- list_fmap_compose.
    f_equal. induction (places response) as [|place l IH]; [reflexivity|].
    simpl. rewrite has_website_convert, IH. reflexivity.
  - apply Forall_forall. intros place _. unfold _convert_place_to_dict. cbv zeta.
    rewrite !(set_if_lookup_ne _ _ _ "id") by discriminate.
    rewrite set_if_lookup_eq, lookup_empty.
    destruct (p_id place); reflexivity.
Qed.

(** X4. When the first page of a search raises, the search gives up at
    once: that call is the only one, and it is followed by the cooldown
    sleep exactly when the error text carries a rate-limit signal. *)
Theorem failed_search_no_retry `{Provider}
    (types : list string) (cell : GridCell) (w : World) (error_str : string) :
  search_nearby (trace w) (first_request types cell) = inl error_str ->
  trace (search_by_type_async types cell w).2
  = (cooldown error_str ++ EvSearchNearby (first_request types cell) :: trace w)%list.
Proof.
  intros Hfail. unfold search_by_type_async. simpl.
  unfold call_search_nearby, on_exception, rate_limited, cooldown. run_m.
  rewrite Hfail.
  destruct (str_contains "429" error_str || str_contains "RESOURCE_EXHAUSTED" error_str);
    reflexivity.
Qed.

Lemma failed_search_no_retry_witness :
  trace (@search_by_type_async (failing_provider "429 Too Many Requests")
           ["restaurant"] unit_cell empty_world).2
  = (cooldown "429 Too Many Requests"
       ++ EvSearchNearby (first_request ["restaurant"] unit_cell) :: trace empty_world)%list.
Proof.
  apply (@failed_search_no_retry
           (failing_provider "429 Too Many Requests")
           ["restaurant"] unit_cell empty_world "429 Too Many Requests").
  reflexivity.
Defined.

(** X5. A first page that comes without a page token ends the search:
    one call, no sleep, and the results are those of that page. *)
Theorem search_without_token_is_one_call `{Provider}
    (types : list string) (cell : GridCell) (w : World)
    (response : SearchNearbyResponse) :
  search_nearby (trace w) (first_request types cell) = inr response ->
  response_token response = None ->
  search_by_type_async types cell w
  = (page_results response,
     {| disk := disk w;
        trace := EvSearchNearby (first_request types cell) :: trace w |}).
Proof.
  intros Hfirst Htoken. unfold search_by_type_async. simpl.
  unfold call_search_nearby. run_m. rewrite Hfirst, Htoken. reflexivity.
Qed.

Lemma search_without_token_is_one_call_witness :
  @search_by_type_async (paging_provider None "unreachable")
    ["restaurant"] unit_cell empty_world
  = (page_results (page_with_token None),
     {| disk := disk empty_world;
        trace := EvSearchNearby (first_request ["restaurant"] unit_cell)
                   :: trace empty_world |}).
Proof.
  apply (@search_without_token_is_one_call
           (paging_provider None "unreachable")
           ["restaurant"] unit_cell empty_world (page_with_token None)).
  - reflexivity.
  - reflexivity.
Defined.

(** X6. When the first page carries a token and the request for the
    second page raises, the search keeps the results of the first page;
    it has made two calls, the second one with the token, two seconds
    after the first. *)
Theorem later_page_failure_keeps_results `{Provider}
    (types : list string) (cell : GridCell) (w : World)
    (response : SearchNearbyResponse) (token error_str : string) :
  search_nearby (trace w) (first_request types cell) = inr response ->
  response_token response = Some token ->
  search_nearby (EvSleep 2 :: EvSearchNearby (first_request types cell) :: trace w)
                (NextPage token 20) = inl error_str ->
  (search_by_type_async types cell w).1 = page_results response /\
  trace (search_by_type_async types cell w).2
  = (cooldown error_str
       ++ EvSearchNearby (NextPage token 20) :: EvSleep 2
       :: EvSearchNearby (first_request types cell) :: trace w)%list.
Proof.
  intros Hfirst Htoken Hsecond. unfold search_by_type_async. simpl.
  unfold call_search_nearby, on_exception, rate_limited, cooldown. run_m.
  rewrite Hfirst, Htoken. run_m. rewrite Hsecond.
  destruct (str_contains "429" error_str || str_contains "RESOURCE_EXHAUSTED" error_str);
    split; reflexivity.
Qed.

Lemma later_page_failure_keeps_results_witness :
  (@search_by_type_async (paging_provider (Some "t2") "503 unavailable")
     ["restaurant"] unit_cell empty_world).1
  = page_results (page_with_token (Some "t2")) /\
  trace (@search_by_type_async
           (paging_provider (Some "t2") "503 unavailable")
           ["restaurant"] unit_cell empty_world).2
  = (cooldown "503 unavailable"
       ++ EvSearchNearby (NextPage "t2" 20) :: EvSleep 2
       :: EvSearchNearby (first_request ["restaurant"] unit_cell)
       :: trace empty_world)%list.
Proof.
  apply (@later_page_failure_keeps_results
           (paging_provider (Some "t2") "503 unavailable")
           ["restaurant"] unit_cell empty_world
           (page_with_token (Some "t2")) "t2" "503 unavailable").
  - reflexivity.
  - reflexivity.
  - reflexivity.
Defined.

(** * Further properties of the detail step *)

Section DetailCalls.
Context `{Runtime} `{Provider}.

Lemma get_place_details_async_failed place_id w error_str :
  get_place (trace w) ("places/" ++ place_id) = inl error_str ->
  get_place_details_async place_id w
  = (None, {| disk := disk w;
              trace := (cooldown error_str
                          ++ EvGetPlace ("places/" ++ place_id) :: trace w)%list |}).
Proof.
  intros Hfail.
  unfold get_place_details_async, call_get_place, on_exception, rate_limited, cooldown.
  run_m. rewrite Hfail.
  destruct (str_contains "429" error_str || str_contains "RESOURCE_EXHAUSTED" error_str);
    reflexivity.
Qed.

Lemma get_place_details_async_answered place_id w response :
  get_place (trace w) ("places/" ++ place_id) = inr response ->
  get_place_details_async place_id w
  = (place_details response,
     {| disk := disk w; trace := EvGetPlace ("places/" ++ place_id) :: trace w |}).
Proof.
  intros Hanswer. unfold get_place_details_async, call_get_place. run_m.
  rewrite Hanswer. reflexivity.
Qed.

Lemma place_details_lookups response :
  exists details,
    place_details response = (if truthy (JObj details) then Some details else None) /\
    details !! "reviews"
    = match reviews response with
      | [] => None
      | _ :: _ => Some (JArr (review_dict <$> kept_reviews response))
      end /\
    details !! "generativeSummary"
    = generative_summary_dict <$> generative_summary response /\
    details !! "reviewSummary" = review_summary_dict <$> review_summary response /\
    (forall k, k <> "reviews" -> k <> "generativeSummary" -> k <> "reviewSummary" ->
               details !! k = None).
Proof.
  unfold place_details.
  match goal with |- context [truthy (JObj ?m)] => exists m end.
  split; [reflexivity|]. split; [|split; [|split]].
  - rewrite !set_if_lookup_ne by discriminate.
    destruct (reviews response); [apply lookup_empty | apply lookup_insert_eq].
  - rewrite set_if_lookup_ne by discriminate. rewrite set_if_lookup_eq.
    destruct (generative_summary response); [reflexivity|].
    destruct (reviews response); [apply lookup_empty|].
    rewrite lookup_insert_ne by discriminate. apply lookup_empty.
  - rewrite set_if_lookup_eq.
    destruct (review_summary response); [reflexivity|].
    rewrite set_if_lookup_ne by discriminate.
    destruct (reviews response); [apply lookup_empty|].
    rewrite lookup_insert_ne by discriminate. apply lookup_empty.
  - intros k Hr Hg Hs. rewrite !set_if_lookup_ne by congruence.
    destruct (reviews response); [apply lookup_empty|].
    rewrite lookup_insert_ne by congruence. apply lookup_empty.
Qed.
End DetailCalls.

(** X7. A detail fetch makes exactly one provider call, whatever the
    provider answers, and leaves the disk alone. *)
Theorem detail_fetch_is_one_call `{Runtime} `{Provider}
    (place_id : string) (w : World) :
  api_calls (get_place_details_async place_id w).2 = S (api_calls w) /\
  disk (get_place_details_async place_id w).2 = disk w.
Proof.
  split; [|apply get_place_details_async_disk].
  destruct (get_place (trace w) ("places/" ++ place_id)) as [error_str|response] eqn:Hcall.
  - rewrite (get_place_details_async_failed _ _ _ Hcall). unfold api_calls, cooldown. simpl.
    destruct (str_contains "429" error_str || str_contains "RESOURCE_EXHAUSTED" error_str);
      reflexivity.
  - rewrite (get_place_details_async_answered _ _ _ Hcall). reflexivity.
Qed.

(** X8. The details made from a response are never an empty
    dictionary: they are [None] exactly when the response has no
    reviews, no generative summary and no review summary. *)
Theorem no_details_iff_nothing_returned `{Runtime} (response : GetPlaceResponse) :
  place_details response <> Some ∅ /\
  (place_details response = None <->
   reviews response = [] /\ generative_summary response = None /\
   review_summary response = None).
Proof.
  destruct (place_details_lookups response)
    as (details & Hdetails & Hreviews & Hgen & Hsum & Hother).
  split.
  - intros Hempty. apply place_details_truthy in Hempty. discriminate.
  - rewrite Hdetails. split.
    + destruct (truthy (JObj details)) eqn:Htruthy; [discriminate|]. intros _.
      assert (details = ∅) as ->.
      { unfold truthy in Htruthy. apply negb_false_iff, Nat.eqb_eq in Htruthy.
        apply map_size_empty_iff, Htruthy. }
      rewrite lookup_empty in Hreviews, Hgen, Hsum.
      destruct (reviews response); [|discriminate].
      destruct (generative_summary response); [discriminate|].
      destruct (review_summary response); [discriminate|].
      repeat split.
    + intros (Hr & Hg & Hs). rewrite Hr in Hreviews. rewrite Hg in Hgen.
      rewrite Hs in Hsum. simpl in Hgen, Hsum.
      assert (details = ∅) as ->.
      { apply map_eq. intros k. rewrite lookup_empty.
        destruct (decide (k = "reviews")) as [->|Hk1]; [exact Hreviews|].
        destruct (decide (k = "generativeSummary")) as [->|Hk2]; [exact Hgen|].
        destruct (decide (k = "reviewSummary")) as [->|Hk3]; [exact Hsum|].
        apply Hother; assumption. }
      reflexivity.
Qed.

(** X9. When a place has no usable details record and the detail
    request raises, the restaurant is returned as it was, the empty
    marker is written so that the record reads as empty from then on,
    and the only things done are the one call and, on a rate-limit
    signal, the cooldown sleep. *)
Theorem failed_detail_fetch_is_cached `{Runtime} `{Provider}
    (w : World) (place_id : string) (restaurant : gmap string json)
    (error_str : string) :
  (load_details_cache place_id w).1 = None ->
  get_place (trace w) ("places/" ++ place_id) = inl error_str ->
  (enrich_restaurant_async place_id restaurant w).1 = (restaurant, false, true) /\
  details_record
    (load_details_cache place_id (enrich_restaurant_async place_id restaurant w).2).1
  = Empty /\
  trace (enrich_restaurant_async place_id restaurant w).2
  = (cooldown error_str ++ EvGetPlace ("places/" ++ place_id) :: trace w)%list.
Proof.
  intros Hload Hfail. rewrite enrich_restaurant_async_run, Hload.
  rewrite (get_place_details_async_failed _ _ _ Hfail). cbn [fst snd].
  split; [reflexivity|]. split; [|reflexivity].
  rewrite load_after_save_details. reflexivity.
Qed.

Lemma failed_detail_fetch_is_cached_witness :
  (@enrich_restaurant_async decimal_runtime (failing_provider "500 internal")
     "p1" sample_entity corrupt_world).1 = (sample_entity, false, true) /\
  details_record
    (@load_details_cache "p1"
       (@enrich_restaurant_async decimal_runtime (failing_provider "500 internal")
          "p1" sample_entity corrupt_world).2).1
  = Empty /\
  trace (@enrich_restaurant_async decimal_runtime (failing_provider "500 internal")
           "p1" sample_entity corrupt_world).2
  = (cooldown "500 internal" ++ EvGetPlace ("places/" ++ "p1") :: trace corrupt_world)%list.
Proof.
  apply (@failed_detail_fetch_is_cached decimal_runtime (failing_provider "500 internal")
           corrupt_world "p1" sample_entity "500 internal").
  - reflexivity.
  - reflexivity.
Defined.

(** X10. When a place has no usable details record and the provider
    answers, the restaurant is updated with the details made from the
    answer, if there are any; the record then reads back those details,
    or as empty when there were none; and the pause after the call is
    taken only when there were details. *)
Theorem answered_detail_fetch_is_cached `{Runtime} `{Provider}
    (w : World) (place_id : string) (restaurant : gmap string json)
    (response : GetPlaceResponse) :
  (load_details_cache place_id w).1 = None ->
  get_place (trace w) ("places/" ++ place_id) = inr response ->
  (enrich_restaurant_async place_id restaurant w).1
  = (updated restaurant (place_details response), false, true) /\
  details_record
    (load_details_cache place_id (enrich_restaurant_async place_id restaurant w).2).1
  = match place_details response with
    | Some d => Present d
    | None => Empty
    end /\
  trace (enrich_restaurant_async place_id restaurant w).2
  = (match place_details response with
     | Some _ => [EvSleep DETAILS_DELAY]
     | None => []
     end ++ EvGetPlace ("places/" ++ place_id) :: trace w)%list.
Proof.
  intros Hload Hanswer. rewrite enrich_restaurant_async_run, Hload.
  rewrite (get_place_details_async_answered _ _ _ Hanswer). cbn [fst snd].
  split; [reflexivity|].
  destruct (place_details response) as [d|] eqn:Hd.
  - rewrite (place_details_truthy _ _ Hd). split; [|reflexivity].
    rewrite load_details_cache_lookup. simpl. rewrite lookup_insert_eq.
    rewrite (place_details_not_marker _ _ Hd). simpl.
    rewrite (place_details_truthy _ _ Hd). reflexivity.
  - split; [|reflexivity]. rewrite load_after_save_details. reflexivity.
Qed.

Lemma answered_detail_fetch_is_cached_witness :
  (@enrich_restaurant_async decimal_runtime (paging_provider None "unreachable")
     "p1" sample_entity empty_world).1
  = (updated sample_entity (@place_details decimal_runtime sample_response), false, true) /\
  details_record
    (@load_details_cache "p1"
       (@enrich_restaurant_async decimal_runtime (paging_provider None "unreachable")
          "p1" sample_entity empty_world).2).1
  = match @place_details decimal_runtime sample_response with
    | Some d => Present d
    | None => Empty
    end /\
  trace (@enrich_restaurant_async decimal_runtime (paging_provider None "unreachable")
           "p1" sample_entity empty_world).2
  = (match @place_details decimal_runtime sample_response with
     | Some _ => [EvSleep DETAILS_DELAY]
     | None => []
     end ++ EvGetPlace ("places/" ++ "p1") :: trace empty_world)%list.
Proof.
  apply (@answered_detail_fetch_is_cached decimal_runtime
           (paging_provider None "unreachable")
           empty_world "p1" sample_entity sample_response).
  - reflexivity.
  - reflexivity.
Defined.

(** ** Reviews with equal sort keys *)

Lemma insert_desc_head x l :
  Forall (newer_or_equal_key x) l -> insert_desc x l = x :: l.
Proof.
  destruct l as [|y l]; [reflexivity|]. intros Hall.
  apply Forall_inv in Hall. unfold newer_or_equal_key in Hall. simpl.
  destruct (Z.leb_spec (get_publish_time y) (get_publish_time x)); [reflexivity | lia].
Qed.

(** X11. Sorting is stable: reviews that already come most recent
    first by sort key, in particular reviews that all have the same key
    or no publish time at all, are kept in the order of the response. *)
Theorem sorted_reviews_keeps_sorted_input (l : list Review) :
  StronglySorted newer_or_equal_key l -> sorted_reviews l = l.
Proof.
  induction l as [|x l IH]; [reflexivity|]. intros Hsorted.
  apply StronglySorted_inv in Hsorted as [Htail Hhead].
  unfold sorted_reviews in *. simpl. rewrite (IH Htail).
  apply insert_desc_head, Hhead.
Qed.

Lemma sorted_reviews_keeps_sorted_input_witness :
  sorted_reviews (reviews same_second_response) = reviews same_second_response.
Proof.
  apply (sorted_reviews_keeps_sorted_input (reviews same_second_response)).
  simpl. apply SSorted_cons.
  - apply SSorted_cons; [apply SSorted_nil | apply Forall_nil_2].
  - apply Forall_cons_2; [|apply Forall_nil_2].
    apply Z.leb_le. reflexivity.
Defined.

(** X12. For every detail response, ties between sort keys allowed, at
    most ten reviews are returned: [min n 10] of them, never ascending
    by sort key, and no review left out has a larger key than a review
    that is kept. *)
Theorem at_most_ten_reviews `{Runtime} (response : GetPlaceResponse) :
  returned_reviews response = review_dict <$> kept_reviews response /\
  length (returned_reviews response) = Nat.min (length (reviews response)) MAX_REVIEWS /\
  StronglySorted newer_or_equal_key (kept_reviews response) /\
  exists dropped,
    reviews response ≡ₚ kept_reviews response ++ dropped /\
    Forall (fun a => Forall (newer_or_equal_key a) dropped) (kept_reviews response).
Proof.
  pose proof (sorted_reviews_sorted (reviews response)) as Hsorted.
  rewrite <- (take_drop MAX_REVIEWS (sorted_reviews (reviews response))) in Hsorted.
  apply StronglySorted_app in Hsorted as (Hcross & Hkept & _).
  split; [apply returned_reviews_kept|]. split; [|split; [exact Hkept|]].
  - rewrite returned_reviews_kept, length_fmap. unfold kept_reviews.
    rewrite length_take, (Permutation_length (sorted_reviews_perm _)).
    apply Nat.min_comm.
  - exists (drop MAX_REVIEWS (sorted_reviews (reviews response))). split.
    + unfold kept_reviews. rewrite take_drop. symmetry. apply sorted_reviews_perm.
    + apply Forall_forall. intros a Ha. apply Forall_forall. intros b Hb.
      apply Hcross; assumption.
Qed.

(** * Further properties of the cell tasks *)

Section CellFacts.
Context `{Runtime} `{Provider}.

Lemma process_cell_async_account cell w :
  (process_cell_async cell w).1.1.2 = negb (process_cell_async cell w).1.2 /\
  if (process_cell_async cell w).1.2
  then (api_calls w + 1 <= api_calls (process_cell_async cell w).2 <= api_calls w + 3)%nat
  else (process_cell_async cell w).2 = w.
Proof.
  rewrite process_cell_async_run.
  destruct (load_grid_cache cell w).1 as [cached|]; [split; reflexivity|].
  cbv zeta. cbn [fst snd negb]. split; [reflexivity|].
  pose proof (search_pages_api_calls max_pages (first_request ["restaurant"] cell) [] w)
    as [Hup Hlow].
  change (Nat.min 1 max_pages) with 1%nat in Hlow.
  assert (forall results w1,
            api_calls (save_grid_cache cell results w1).2 = api_calls w1) as Hsave
    by reflexivity.
  rewrite Hsave. unfold search_by_type_async. unfold max_pages in *. lia.
Qed.

Lemma grid_counters_from cells w cache_hits calls limit_hits :
  let counters := foldl count_cell (cache_hits, calls, limit_hits)
                        (gather_cells cells w).1 in
  (counters.1.1 + counters.1.2 = cache_hits + calls + length cells)%nat /\
  (calls <= counters.1.2)%nat /\
  (api_calls w + (counters.1.2 - calls) <= api_calls (gather_cells cells w).2
   <= api_calls w + 3 * (counters.1.2 - calls))%nat.
Proof.
  revert w cache_hits calls limit_hits.
  induction cells as [|cell cells IH]; intros w cache_hits calls limit_hits.
  - simpl. lia.
  - rewrite gather_cells_cons. cbn [fst snd foldl].
    destruct (process_cell_async_account cell w) as [Hflags Hcalls].
    destruct (process_cell_async cell w) as [[[results from_cache] made_api_call] w1].
    cbn [fst snd] in *. subst from_cache.
    remember (count_cell (cache_hits, calls, limit_hits)
                         (results, negb made_api_call, made_api_call))
      as counters eqn:Hcounters.
    destruct counters as [[hits' calls'] limits'].
    specialize (IH w1 hits' calls' limits').
    cbv zeta in *. destruct IH as (Hsum & Hmono & Hbounds).
    destruct made_api_call; simpl in Hcounters; injection Hcounters as -> -> _.
    + simpl length. lia.
    + subst w1. simpl length. lia.
Qed.
End CellFacts.

(** X13. A grid record that decodes to JSON other than a list reads as
    an empty result list: the cell is reported as a cache hit without
    results, nothing is fetched and nothing is written. *)
Theorem non_list_grid_record_is_empty `{Runtime} `{Provider}
    (cell : GridCell) (w : World) (v : json) :
  disk w !! grid_cache_file cell = Some (JsonText v) ->
  (forall l, v <> JArr l) ->
  process_cell_async cell w = (([], true, false), w).
Proof.
  intros Hfile Hlist. rewrite process_cell_async_run, load_grid_cache_lookup, Hfile.
  destruct v as [| | | | |l|d]; try reflexivity. destruct (Hlist l eq_refl).
Qed.

Lemma non_list_grid_record_is_empty_witness :
  @process_cell_async decimal_runtime (failing_provider "unreachable")
    unit_cell mistyped_world
  = (([], true, false), mistyped_world).
Proof.
  apply (@non_list_grid_record_is_empty decimal_runtime (failing_provider "unreachable")
           unit_cell mistyped_world (JObj ∅)).
  - reflexivity.
  - discriminate.
Defined.

(** X14. A details record that decodes to JSON other than a dictionary
    reads as empty details: the restaurant is returned as it was, as a
    cache hit, nothing is fetched and nothing is written. *)
Theorem non_dict_details_record_is_empty `{Runtime} `{Provider}
    (place_id : string) (restaurant : gmap string json) (w : World) (v : json) :
  disk w !! details_cache_file place_id = Some (JsonText v) ->
  (forall d, v <> JObj d) ->
  enrich_restaurant_async place_id restaurant w = ((restaurant, true, false), w).
Proof.
  intros Hfile Hdict.
  rewrite enrich_restaurant_async_run, load_details_cache_lookup, Hfile.
  destruct v as [| | | | |l|d]; try reflexivity. destruct (Hdict d eq_refl).
Qed.

Lemma non_dict_details_record_is_empty_witness :
  @enrich_restaurant_async decimal_runtime (failing_provider "unreachable")
    "p1" sample_entity mistyped_world
  = ((sample_entity, true, false), mistyped_world).
Proof.
  apply (@non_dict_details_record_is_empty decimal_runtime
           (failing_provider "unreachable")
           "p1" sample_entity mistyped_world (JArr [JStr "x"])).
  - reflexivity.
  - discriminate.
Defined.

(** X15. The two flags a cell task returns are each other's negation.
    A task that reports no API call has left the disk and the trace as
    they were; one that reports an API call has made between one and
    three provider calls. *)
Theorem cell_flags_tell_api_use `{Runtime} `{Provider} (cell : GridCell) (w : World) :
  (process_cell_async cell w).1.1.2 = negb (process_cell_async cell w).1.2 /\
  if (process_cell_async cell w).1.2
  then (api_calls w + 1 <= api_calls (process_cell_async cell w).2 <= api_calls w + 3)%nat
  else (process_cell_async cell w).2 = w.
Proof. apply process_cell_async_account. Qed.

(** X16. In the grid phase the cache-hit and API-call counters add up
    to the number of cells, and the API-call counter counts cells, not
    requests: the provider calls actually made lie between that counter
    and three times it. *)
Theorem grid_counters_account `{Runtime} `{Provider} (cells : list GridCell) (w : World) :
  let counters := grid_counters (gather_cells cells w).1 in
  (counters.1.1 + counters.1.2 = length cells)%nat /\
  (api_calls w + counters.1.2 <= api_calls (gather_cells cells w).2
   <= api_calls w + 3 * counters.1.2)%nat.
Proof.
  destruct (grid_counters_from cells w 0 0 0) as (Hsum & _ & Hbounds).
  unfold grid_counters. cbv zeta. split; [exact Hsum|].
  rewrite Nat.sub_0_r in Hbounds. exact Hbounds.
Qed.

(** * Further properties of the merge and of the enrichment phase *)

Lemma inserted_as_entry place_id result d :
  inserted_as place_id result = Some d -> result = JObj d /\ entry_ok place_id d.
Proof.
  unfold inserted_as, occurrence_of, entry_ok.
  destruct result as [| | | | |l|d0]; try discriminate.
  destruct (d0 !! "id") as [[| | | |s| |]|] eqn:Hid; try discriminate.
  destruct (decide (s = place_id)) as [->|Hne]; [|discriminate].
  destruct (has_website d0) eqn:Hweb; [|discriminate].
  intros [= <-]. repeat split; assumption.
Qed.

Lemma add_result_size all_restaurants result :
  (size (add_result all_restaurants result) <= S (size all_restaurants))%nat.
Proof.
  unfold add_result.
  destruct result as [| | | | |l|d]; try lia.
  destruct (d !! "id") as [[| | | |s| |]|]; try lia.
  destruct (has_website d); [|lia].
  destruct (all_restaurants !! s) as [d0|] eqn:Hs.
  - rewrite map_size_insert_Some by (rewrite Hs; eexists; reflexivity). lia.
  - rewrite map_size_insert_None by exact Hs. lia.
Qed.

Lemma foldl_add_result_size results all_restaurants :
  (size (foldl add_result all_restaurants results)
   <= size all_restaurants + length results)%nat.
Proof.
  revert all_restaurants.
  induction results as [|result results IH]; intros all_restaurants; simpl; [lia|].
  pose proof (IH (add_result all_restaurants result)).
  pose proof (add_result_size all_restaurants result). lia.
Qed.

Lemma last_of_equal_elements {A} (l l' : list A) :
  l ≡ₚ l' -> (forall x y, x ∈ l -> y ∈ l -> x = y) -> last l = last l'.
Proof.
  intros Hperm Hequal.
  destruct (last l) as [x|] eqn:Hl; destruct (last l') as [y|] eqn:Hl'.
  - f_equal. apply Hequal; [exact (last_Some_elem_of _ _ Hl)|].
    rewrite Hperm. exact (last_Some_elem_of _ _ Hl').
  - apply last_None in Hl'. subst l'. apply Permutation_nil_r in Hperm. subst l.
    discriminate.
  - apply last_None in Hl. subst l. apply Permutation_nil_l in Hperm. subst l'.
    discriminate.
  - reflexivity.
Qed.

(** X17. Every entry of the merged map is one of the results of the
    cells, is stored under its own id and has a website; the map has no
    more entries than there were results. *)
Theorem aggregate_entries_are_results (results_list : list (list json)) :
  map_Forall (fun place_id d => entry_ok place_id d /\ JObj d ∈ concat results_list)
             (aggregate results_list) /\
  (size (aggregate results_list) <= length (concat results_list))%nat.
Proof.
  split.
  - apply map_Forall_lookup. intros place_id d.
    rewrite aggregate_concat, foldl_add_result_lookup.
    destruct (last (omap (inserted_as place_id) (concat results_list))) as [d0|] eqn:Hlast;
      [|rewrite lookup_empty; discriminate].
    intros [= ->]. apply last_Some_elem_of, list_elem_of_omap in Hlast
      as (result & Hin & Hinserted).
    apply inserted_as_entry in Hinserted as [-> Hentry]. split; assumption.
  - rewrite aggregate_concat.
    pose proof (foldl_add_result_size (concat results_list) ∅) as Hsize.
    rewrite map_size_empty in Hsize. exact Hsize.
Qed.

(** X18. The order in which the cell tasks complete does not matter
    when the cells agree on the entities they share: if two runs
    collected the same results in different orders, and the results
    inserted under each id are all equal, the merged maps are equal. *)
Theorem aggregate_order_independent (results_list results_list' : list (list json)) :
  concat results_list ≡ₚ concat results_list' ->
  (forall place_id d d',
     d ∈ omap (inserted_as place_id) (concat results_list) ->
     d' ∈ omap (inserted_as place_id) (concat results_list) -> d = d') ->
  aggregate results_list = aggregate results_list'.
Proof.
  intros Hperm Hagree. apply map_eq. intros place_id.
  rewrite !aggregate_concat, !foldl_add_result_lookup.
  rewrite (last_of_equal_elements
             (omap (inserted_as place_id) (concat results_list))
             (omap (inserted_as place_id) (concat results_list'))).
  - reflexivity.
  - apply omap_Permutation, Hperm.
  - apply Hagree.
Qed.

Lemma aggregate_order_independent_witness :
  aggregate [[JObj sample_entity]; [JObj other_entity]]
  = aggregate [[JObj other_entity]; [JObj sample_entity]].
Proof.
  apply (aggregate_order_independent
           [[JObj sample_entity]; [JObj other_entity]]
           [[JObj other_entity]; [JObj sample_entity]]).
  - apply Permutation_swap.
  - intros place_id d d' Hd Hd'.
    apply list_elem_of_omap in Hd as (result & Hin & Hd).
    apply list_elem_of_omap in Hd' as (result' & Hin' & Hd').
    apply inserted_as_entry in Hd as [-> [Hid _]].
    apply inserted_as_entry in Hd' as [-> [Hid' _]].
    simpl in Hin, Hin'.
    apply elem_of_cons in Hin as [Hin|Hin%list_elem_of_singleton];
      apply elem_of_cons in Hin' as [Hin'|Hin'%list_elem_of_singleton];
      injection Hin as ->; injection Hin' as ->;
      vm_compute in Hid, Hid'; congruence.
Defined.

Lemma aggregate_lookup_entry results_list place_id d :
  aggregate results_list !! place_id = Some d -> entry_ok place_id d.
Proof.
  rewrite aggregate_concat, foldl_add_result_lookup.
  destruct (last (omap (inserted_as place_id) (concat results_list))) as [d0|] eqn:Hlast;
    [|rewrite lookup_empty; discriminate].
  intros [= ->]. apply last_Some_elem_of, list_elem_of_omap in Hlast
    as (result & _ & Hinserted).
  apply inserted_as_entry in Hinserted as [_ Hentry]. exact Hentry.
Qed.

Lemma has_website_frame (restaurant restaurant' : gmap string json) :
  restaurant' !! "websiteUri" = restaurant !! "websiteUri" ->
  restaurant' !! "website_uri" = restaurant !! "website_uri" ->
  has_website restaurant' = has_website restaurant.
Proof. unfold has_website, dict_get. intros -> ->. reflexivity. Qed.

Section EnrichmentPhase.
Context `{Runtime} `{Provider}.

Lemma load_details_cache_ok place_id w cached k :
  details_records_ok w ->
  (load_details_cache place_id w).1 = Some cached ->
  k <> "reviews" -> k <> "generativeSummary" -> k <> "reviewSummary" ->
  cached !! k = None.
Proof.
  intros Hok Hload Hr Hg Hs. rewrite load_details_cache_lookup in Hload.
  destruct (disk w !! details_cache_file place_id) as [[v| |]|] eqn:Hfile;
    try discriminate.
  destruct (Hok place_id v Hfile) as [[-> | (response & d & Hd & ->)] | Hother].
  - rewrite empty_marker_is_marker in Hload. injection Hload as <-. apply lookup_empty.
  - rewrite (place_details_not_marker _ _ Hd) in Hload. injection Hload as <-.
    apply (place_details_keys response d k Hd Hr Hg Hs).
  - destruct v as [| | | | |l|d]; simpl in Hload; try (injection Hload as <-; apply lookup_empty).
    destruct (Hother d eq_refl).
Qed.

Lemma enrich_restaurant_async_frame_ok place_id restaurant w k :
  details_records_ok w ->
  k <> "reviews" -> k <> "generativeSummary" -> k <> "reviewSummary" ->
  (enrich_restaurant_async place_id restaurant w).1.1.1 !! k = restaurant !! k.
Proof.
  intros Hok Hr Hg Hs. rewrite enrich_restaurant_async_run.
  destruct (load_details_cache place_id w).1 as [cached|] eqn:Hload; cbn [fst].
  - apply updated_frame. intros d [= <-].
    apply (load_details_cache_ok place_id w cached k Hok Hload Hr Hg Hs).
  - apply updated_frame. intros d Hd.
    destruct (get_place_details_async_result place_id w d Hd) as [response Hresp].
    apply (place_details_keys response d k Hresp Hr Hg Hs).
Qed.

Lemma enrich_restaurant_async_ok place_id restaurant w :
  details_records_ok w ->
  details_records_ok (enrich_restaurant_async place_id restaurant w).2.
Proof.
  intros Hok. rewrite enrich_restaurant_async_run.
  destruct (load_details_cache place_id w).1 as [cached|]; [exact Hok|].
  pose proof (get_place_details_async_disk place_id w) as Hdisk.
  pose proof (get_place_details_async_result place_id w) as Hres.
  destruct (get_place_details_async place_id w) as [details w1]. simpl in *.
  assert (forall place_id' v,
            <[details_cache_file place_id :=
                JsonText (JObj match details with
                               | Some d => d
                               | None => empty_marker
                               end)]> (disk w1) !! details_cache_file place_id'
            = Some (JsonText v) ->
            saved_by_fetch v \/ forall d, v <> JObj d) as Hafter.
  { intros place_id' v Hv. apply lookup_insert_Some in Hv as [[_ Hv]|[_ Hv]].
    - injection Hv as <-. left. destruct details as [d|]; [|left; reflexivity].
      destruct (Hres d eq_refl) as [response Hd]. right. exists response, d.
      split; [exact Hd | reflexivity].
    - rewrite Hdisk in Hv. apply (Hok place_id' v Hv). }
  destruct details as [d|]; [destruct (truthy (JObj d))|]; exact Hafter.
Qed.

Lemma enrich_restaurant_async_entry place_id restaurant w key :
  details_records_ok w ->
  entry_ok key restaurant ->
  entry_ok key (enrich_restaurant_async place_id restaurant w).1.1.1.
Proof.
  intros Hok [Hid Hweb]. split.
  - rewrite enrich_restaurant_async_frame_ok by (assumption || discriminate). exact Hid.
  - rewrite <- Hweb. apply has_website_frame;
      apply enrich_restaurant_async_frame_ok; (assumption || discriminate).
Qed.

Lemma process_cell_async_ok cell w :
  details_records_ok w -> details_records_ok (process_cell_async cell w).2.
Proof.
  intros Hok. rewrite process_cell_async_run.
  destruct (load_grid_cache cell w).1 as [cached|]; [exact Hok|].
  pose proof (search_by_type_async_disk ["restaurant"] cell w) as Hdisk.
  destruct (search_by_type_async ["restaurant"] cell w) as [results w1]. simpl in *.
  intros place_id v Hv. cbn [disk] in Hv.
  apply lookup_insert_Some in Hv as [[_ Hv]|[_ Hv]].
  - injection Hv as <-. right. discriminate.
  - rewrite Hdisk in Hv. apply (Hok place_id v Hv).
Qed.

Lemma gather_cells_ok cells w :
  details_records_ok w -> details_records_ok (gather_cells cells w).2.
Proof.
  revert w. induction cells as [|cell cells IH]; intros w Hok; [exact Hok|].
  rewrite gather_cells_cons. cbn [snd]. apply IH, process_cell_async_ok, Hok.
Qed.

Lemma gather_cells_api_calls cells w :
  (api_calls (gather_cells cells w).2 <= api_calls w + 3 * length cells)%nat.
Proof.
  revert w. induction cells as [|cell cells IH]; intros w; [simpl; lia|].
  rewrite gather_cells_cons. cbn [snd].
  specialize (IH (process_cell_async cell w).2).
  destruct (process_cell_async_account cell w) as [_ Hcalls]. revert Hcalls.
  destruct (process_cell_async cell w).1.2; intros Hcalls;
    [|rewrite Hcalls in IH |- *]; simpl length; lia.
Qed.

Lemma enrich_restaurant_async_api_calls place_id restaurant w :
  (api_calls (enrich_restaurant_async place_id restaurant w).2 <= S (api_calls w))%nat.
Proof.
  rewrite enrich_restaurant_async_run.
  destruct (load_details_cache place_id w).1 as [cached|]; [simpl; lia|].
  pose proof (get_place_details_async_disk place_id w) as Hdisk.
  assert (api_calls (get_place_details_async place_id w).2 = S (api_calls w)) as Hcall.
  { unfold get_place_details_async, call_get_place, on_exception. run_m.
    destruct (get_place (trace w) ("places/" ++ place_id)) as [error_str|response];
      [|reflexivity].
    destruct (rate_limited error_str); reflexivity. }
  destruct (get_place_details_async place_id w) as [details w1]. cbv zeta. cbn [fst snd] in *.
  assert (forall w2, api_calls (save_details_cache place_id details w2).2 = api_calls w2)
    as Hsave by reflexivity.
  destruct details as [d|]; [destruct (truthy (JObj d))|];
    rewrite ?api_calls_sleep, Hsave, Hcall; lia.
Qed.

Lemma enrich_restaurants_async_api_calls place_ids restaurants w :
  (api_calls (enrich_restaurants_async place_ids restaurants w).2
   <= api_calls w + length place_ids)%nat.
Proof.
  revert restaurants w.
  induction place_ids as [|place_id place_ids IH]; intros restaurants w; [simpl; lia|].
  rewrite enrich_restaurants_async_cons.
  destruct (restaurants !! place_id) as [restaurant|]; cbv zeta.
  - pose proof (enrich_restaurant_async_api_calls place_id restaurant w).
    match goal with |- context [enrich_restaurants_async place_ids ?m ?w1] =>
      specialize (IH m w1) end.
    simpl length. lia.
  - specialize (IH restaurants w). simpl length. lia.
Qed.

Lemma enrich_restaurants_async_frame place_ids restaurants w :
  details_records_ok w ->
  dom (enrich_restaurants_async place_ids restaurants w).1 = dom restaurants /\
  (map_Forall entry_ok restaurants ->
   map_Forall entry_ok (enrich_restaurants_async place_ids restaurants w).1) /\
  forall key k,
    k <> "reviews" -> k <> "generativeSummary" -> k <> "reviewSummary" ->
    (enrich_restaurants_async place_ids restaurants w).1 !! key
      ≫= (fun restaurant => restaurant !! k)
    = restaurants !! key ≫= (fun restaurant => restaurant !! k).
Proof.
  revert restaurants w.
  induction place_ids as [|place_id place_ids IH]; intros restaurants w Hok.
  { split; [reflexivity|]. split; [intros Hall; exact Hall | reflexivity]. }
  rewrite enrich_restaurants_async_cons.
  destruct (restaurants !! place_id) as [restaurant|] eqn:Hlookup; [|apply IH, Hok].
  cbv zeta.
  destruct (IH (<[place_id := (enrich_restaurant_async place_id restaurant w).1.1.1]>
                  restaurants)
               (enrich_restaurant_async place_id restaurant w).2
               (enrich_restaurant_async_ok place_id restaurant w Hok))
    as (Hdom & Hentries & Hframe).
  split; [|split].
  - rewrite Hdom. apply dom_insert_lookup_L. rewrite Hlookup. eexists; reflexivity.
  - intros Hall. apply Hentries. apply map_Forall_insert_2; [|exact Hall].
    apply enrich_restaurant_async_entry; [exact Hok|].
    apply (map_Forall_lookup_1 _ _ _ _ Hall Hlookup).
  - intros key k Hr Hg Hs. rewrite (Hframe key k Hr Hg Hs).
    destruct (decide (place_id = key)) as [<-|Hne].
    + rewrite lookup_insert_eq, Hlookup. simpl.
      apply enrich_restaurant_async_frame_ok; assumption.
    + rewrite lookup_insert_ne by exact Hne. reflexivity.
Qed.
End EnrichmentPhase.

(** X19. When the details records on disk are such as a run leaves
    behind, the enrichment phase keeps the set of ids of the map, and
    changes no field of any restaurant other than [reviews],
    [generativeSummary] and [reviewSummary]. *)
Theorem enrichment_phase_frame `{Runtime} `{Provider}
    (place_ids : list string) (restaurants : gmap string (gmap string json))
    (w : World) (key k : string) :
  details_records_ok w ->
  k <> "reviews" -> k <> "generativeSummary" -> k <> "reviewSummary" ->
  dom (enrich_restaurants_async place_ids restaurants w).1 = dom restaurants /\
  (enrich_restaurants_async place_ids restaurants w).1 !! key
    ≫= (fun restaurant => restaurant !! k)
  = restaurants !! key ≫= (fun restaurant => restaurant !! k).
Proof.
  intros Hok Hr Hg Hs.
  destruct (enrich_restaurants_async_frame place_ids restaurants w Hok)
    as (Hdom & _ & Hframe).
  split; [exact Hdom | apply Hframe; assumption].
Qed.

Lemma enrichment_phase_frame_witness :
  dom (@enrich_restaurants_async decimal_runtime (failing_provider "unreachable")
         ["p1"] {[ "p1" := sample_entity ]} warm_world).1
  = dom ({[ "p1" := sample_entity ]} : gmap string (gmap string json)) /\
  (@enrich_restaurants_async decimal_runtime (failing_provider "unreachable")
     ["p1"] {[ "p1" := sample_entity ]} warm_world).1 !! "p1"
    ≫= (fun restaurant => restaurant !! "websiteUri")
  = ({[ "p1" := sample_entity ]} : gmap string (gmap string json)) !! "p1"
      ≫= (fun restaurant => restaurant !! "websiteUri").
Proof.
  apply (@enrichment_phase_frame decimal_runtime (failing_provider "unreachable")
           ["p1"] {[ "p1" := sample_entity ]} warm_world "p1" "websiteUri").
  - intros place_id v Hv. unfold warm_world in Hv. cbn [disk] in Hv.
    apply lookup_insert_Some in Hv as [[_ Hv]|[_ Hv]].
    + injection Hv as <-. right. discriminate.
    + apply lookup_singleton_Some in Hv as [_ Hv]. injection Hv as <-.
      left. right. exists sample_response, sample_details. split; reflexivity.
  - discriminate.
  - discriminate.
  - discriminate.
Defined.

(** X20. When the details records on disk are such as a run leaves
    behind, every restaurant of the map a whole run ends with is stored
    under its own id and has a website, whatever the grid cache held
    and whatever the provider answered. *)
Theorem output_entries_have_website `{Runtime} `{Provider}
    (cells : list GridCell) (place_ids : list string) (w : World) :
  details_records_ok w ->
  map_Forall entry_ok (main_async cells place_ids w).1.
Proof.
  intros Hok. rewrite main_async_run.
  destruct (enrich_restaurants_async_frame place_ids
              (aggregate (outcome_results <$> (gather_cells cells w).1))
              (gather_cells cells w).2 (gather_cells_ok cells w Hok))
    as (_ & Hentries & _).
  apply Hentries. apply map_Forall_lookup. intros place_id d.
  apply aggregate_lookup_entry.
Qed.

Lemma output_entries_have_website_witness :
  map_Forall entry_ok
    (@main_async decimal_runtime (failing_provider "unreachable")
       [unit_cell] ["p1"] warm_world).1.
Proof.
  apply (@output_entries_have_website decimal_runtime (failing_provider "unreachable")
           [unit_cell] ["p1"] warm_world).
  intros place_id v Hv. unfold warm_world in Hv. cbn [disk] in Hv.
  apply lookup_insert_Some in Hv as [[_ Hv]|[_ Hv]].
  - injection Hv as <-. right. discriminate.
  - apply lookup_singleton_Some in Hv as [_ Hv]. injection Hv as <-.
    left. right. exists sample_response, sample_details. split; reflexivity.
Defined.

(** X21. A whole run makes at most three provider calls for each cell
    and one for each restaurant. *)
Theorem run_call_budget `{Runtime} `{Provider}
    (cells : list GridCell) (place_ids : list string) (w : World) :
  (api_calls (main_async cells place_ids w).2
   <= api_calls w + 3 * length cells + length place_ids)%nat.
Proof.
  rewrite main_async_run.
  pose proof (gather_cells_api_calls cells w).
  pose proof (enrich_restaurants_async_api_calls place_ids
                (aggregate (outcome_results <$> (gather_cells cells w).1))
                (gather_cells cells w).2).
  lia.
Qed.

(** * Further properties of the grid and of the search radius *)

Section LatticeFacts.
Local Open Scope Q_scope.

Lemma span_inside (lo hi s I N : Q) :
  lo < hi -> 0 < N -> s == (hi - lo) / N -> 0 <= I -> I + 1 <= N ->
  lo <= lo + I * s /\ lo + I * s < lo + (I + 1) * s /\ lo + (I + 1) * s <= hi /\
  lo + (I + 1) * s - (lo + I * s) == (hi - lo) / N.
Proof.
  intros Hlohi HN Hs HI HIN.
  assert (s * N == hi - lo) as HsN by (rewrite Hs; field; lra).
  assert (0 < s) as Hspos.
  { rewrite Hs. apply Qlt_shift_div_l; lra. }
  assert (0 <= I * s) as HIs by (apply Qmult_le_0_compat; lra).
  assert ((I + 1) * s <= N * s) as Hle by (apply Qmult_le_compat_r; lra).
  repeat split; lra.
Qed.
End LatticeFacts.

(** X22. For a bounding box with a positive extent in both directions,
    every cell of the lattice lies within the box, has its low edges
    below its high edges, and spans one [N]-th of the box in each
    direction. *)
Theorem lattice_cells_within_bounds (bounds : Bounds) (grid_size : nat) (cell : GridCell) :
  (b_lat_low bounds < b_lat_high bounds)%Q ->
  (b_lon_low bounds < b_lon_high bounds)%Q ->
  In cell (lattice bounds grid_size) ->
  (b_lat_low bounds <= lat_low cell /\ lat_low cell < lat_high cell /\
   lat_high cell <= b_lat_high bounds /\
   lat_high cell - lat_low cell
   == (b_lat_high bounds - b_lat_low bounds) / inject_Z (Z.of_nat grid_size))%Q /\
  (b_lon_low bounds <= lon_low cell /\ lon_low cell < lon_high cell /\
   lon_high cell <= b_lon_high bounds /\
   lon_high cell - lon_low cell
   == (b_lon_high bounds - b_lon_low bounds) / inject_Z (Z.of_nat grid_size))%Q.
Proof.
  intros Hlat Hlon Hin.
  apply lattice_cells in Hin as (i & j & Hi & Hj & ->).
  destruct (index_bounds i grid_size Hi) as (HN & HI & HIN & HI1).
  destruct (index_bounds j grid_size Hj) as (_ & HJ & HJN & HJ1).
  unfold grid_cell. cbn [lat_low lat_high lon_low lon_high].
  rewrite HI1, HJ1. split; apply span_inside; auto; reflexivity.
Qed.

Lemma lattice_cells_within_bounds_witness :
  (b_lat_low sliver_bounds <= lat_low sliver_cell /\
   lat_low sliver_cell < lat_high sliver_cell /\
   lat_high sliver_cell <= b_lat_high sliver_bounds /\
   lat_high sliver_cell - lat_low sliver_cell
   == (b_lat_high sliver_bounds - b_lat_low sliver_bounds) / inject_Z (Z.of_nat 2))%Q /\
  (b_lon_low sliver_bounds <= lon_low sliver_cell /\
   lon_low sliver_cell < lon_high sliver_cell /\
   lon_high sliver_cell <= b_lon_high sliver_bounds /\
   lon_high sliver_cell - lon_low sliver_cell
   == (b_lon_high sliver_bounds - b_lon_low sliver_bounds) / inject_Z (Z.of_nat 2))%Q.
Proof.
  apply (lattice_cells_within_bounds sliver_bounds 2 sliver_cell).
  - reflexivity.
  - reflexivity.
  - left. reflexivity.
Defined.

Section RadiusLimits.
Local Open Scope R_scope.

Lemma cell_diagonal_nonneg cell : 0 <= cell_diagonal cell.
Proof. apply sqrt_pos. Qed.

Lemma py_int_floor x : 0 <= x -> IZR (py_int x) <= x < IZR (py_int x) + 1.
Proof.
  intros Hx. unfold py_int. destruct (Rle_dec 0 x) as [_|Hneg]; [|lra].
  destruct (base_Int_part x) as [Hle Hgt]. lra.
Qed.

Lemma unit_cell_diagonal : 111000 <= cell_diagonal unit_cell.
Proof.
  unfold cell_diagonal.
  assert (lat_meters unit_cell = 111000) as ->.
  { unfold lat_meters.
    rewrite (Qeq_eqR (lat_high unit_cell - lat_low unit_cell) 1) by reflexivity.
    unfold Q2R. simpl. lra. }
  rewrite <- (sqrt_pow2 111000) at 1 by lra.
  apply sqrt_le_1_alt. pose proof (pow2_ge_0 (lon_meters unit_cell)). lra.
Qed.
End RadiusLimits.

(** X23. The search radius of every cell is at least the buffer of 100
    metres and at most the cap of 50000 metres. *)
Theorem radius_within_limits (cell : GridCell) :
  (100 <= radius_meters cell <= 50000)%Z.
Proof.
  unfold radius_meters. split; [|apply Z.le_min_r].
  apply Z.min_glb; [|lia].
  pose proof (cell_diagonal_nonneg cell) as Hpos.
  destruct (py_int_floor (cell_diagonal cell + 100)) as [_ Hgt]; [lra|].
  assert (99 < IZR (py_int (cell_diagonal cell + 100)))%R as Hlt by lra.
  apply lt_IZR in Hlt. lia.
Qed.

(** X24. Below the cap the radius is the whole diagonal of the cell
    plus the buffer, rounded down; in particular it is larger than half
    the diagonal, the distance from the centre to a corner. *)
Theorem uncapped_radius_is_diagonal_plus_buffer (cell : GridCell) :
  (cell_diagonal cell + 100 < 50000)%R ->
  (cell_diagonal cell + 99 < IZR (radius_meters cell) <= cell_diagonal cell + 100)%R /\
  (half_diagonal cell < IZR (radius_meters cell))%R.
Proof.
  intros Hcap. pose proof (radius_meters_bounds cell Hcap) as [Hlow Hhigh].
  pose proof (cell_diagonal_nonneg cell) as Hpos.
  split; [split; assumption|]. unfold half_diagonal. lra.
Qed.

Lemma uncapped_radius_is_diagonal_plus_buffer_witness :
  (cell_diagonal equator_cell + 99 < IZR (radius_meters equator_cell)
   <= cell_diagonal equator_cell + 100)%R /\
  (half_diagonal equator_cell < IZR (radius_meters equator_cell))%R.
Proof.
  apply (uncapped_radius_is_diagonal_plus_buffer equator_cell).
  pose proof equator_diagonal as [_ Hhigh]. lra.
Defined.

(** X25. A cell whose diagonal plus the buffer reaches the cap gets a
    radius of exactly 50000 metres. *)
Theorem capped_radius (cell : GridCell) :
  (50000 <= cell_diagonal cell + 100)%R ->
  radius_meters cell = 50000%Z.
Proof.
  intros Hcap. unfold radius_meters. apply Z.min_r.
  destruct (py_int_floor (cell_diagonal cell + 100)) as [_ Hgt]; [lra|].
  assert (49999 < IZR (py_int (cell_diagonal cell + 100)))%R as Hlt by lra.
  apply lt_IZR in Hlt. lia.
Qed.

Lemma capped_radius_witness : radius_meters unit_cell = 50000%Z.
Proof.
  apply (capped_radius unit_cell).
  pose proof unit_cell_diagonal. lra.
Defined.

(** * The boundary polygon as a module global *)

Section BoundaryFacts.
Context `{Shapely} `{BoundaryLoader} `{MissingGeometry}.

Lemma get_polygon_loaded g polygon :
  MANHATTAN_POLYGON g = Some polygon ->
  Global._get_manhattan_polygon g = (inr (Some polygon), g).
Proof. unfold Global._get_manhattan_polygon. intros ->. reflexivity. Qed.

Lemma get_polygon_result g :
  Global._get_manhattan_polygon g
  = (inr (MANHATTAN_POLYGON (Global._get_manhattan_polygon g).2),
     (Global._get_manhattan_polygon g).2).
Proof.
  unfold Global._get_manhattan_polygon.
  destruct (MANHATTAN_POLYGON g) as [polygon|] eqn:Hglobal.
  - simpl. rewrite Hglobal. reflexivity.
  - destruct (load_manhattan_boundary (boundary_loads g)); reflexivity.
Qed.

Lemma get_polygon_first_use g :
  MANHATTAN_POLYGON g = None ->
  (Global._get_manhattan_polygon g).2
  = {| MANHATTAN_POLYGON :=
         match load_manhattan_boundary (boundary_loads g) with
         | LoadPolygon polygon => Some polygon
         | LoadNone | LoadRaises _ => None
         end;
       boundary_loads := S (boundary_loads g) |}.
Proof.
  unfold Global._get_manhattan_polygon. intros ->.
  destruct (load_manhattan_boundary (boundary_loads g)); reflexivity.
Qed.

Lemma point_in_manhattan_first g lat lon :
  Global.point_in_manhattan lat lon g
  = (match MANHATTAN_POLYGON (Global._get_manhattan_polygon g).2 with
     | Some polygon => inr (point_in_manhattan polygon lat lon)
     | None => inl AttributeError
     end, (Global._get_manhattan_polygon g).2).
Proof.
  unfold Global.point_in_manhattan, mbind, G_bind. rewrite get_polygon_result.
  cbn [fst snd].
  destruct (MANHATTAN_POLYGON (Global._get_manhattan_polygon g).2); reflexivity.
Qed.

Lemma any_corner_loaded g polygon corners :
  MANHATTAN_POLYGON g = Some polygon ->
  Global.any_corner corners g
  = (inr (existsb (fun '(lat, lon) => point_in_manhattan polygon lat lon) corners), g).
Proof.
  intros Hloaded. induction corners as [|[lat lon] corners IH]; [reflexivity|].
  simpl. unfold mbind, G_bind.
  rewrite point_in_manhattan_first, (get_polygon_loaded g polygon Hloaded).
  cbn [fst snd]. rewrite Hloaded.
  destruct (point_in_manhattan polygon lat lon); [reflexivity | exact IH].
Qed.

Lemma cell_overlaps_manhattan_first g cell :
  Global.cell_overlaps_manhattan cell g
  = (match MANHATTAN_POLYGON (Global._get_manhattan_polygon g).2 with
     | Some polygon => inr (cell_overlaps_manhattan polygon cell)
     | None => inl AttributeError
     end, (Global._get_manhattan_polygon g).2).
Proof.
  unfold Global.cell_overlaps_manhattan, cell_overlaps_manhattan.
  destruct (cell_center cell) as [center_lat center_lon].
  unfold mbind, G_bind. rewrite point_in_manhattan_first.
  destruct (MANHATTAN_POLYGON (Global._get_manhattan_polygon g).2)
    as [polygon|] eqn:Hloaded; [|reflexivity].
  destruct (point_in_manhattan polygon center_lat center_lon); [reflexivity|].
  rewrite (any_corner_loaded _ polygon _ Hloaded).
  destruct (existsb _ (cell_corners cell)); [reflexivity|].
  rewrite (get_polygon_loaded _ polygon Hloaded). reflexivity.
Qed.

Lemma keep_overlapping_loaded g polygon cells :
  MANHATTAN_POLYGON g = Some polygon ->
  Global.keep_overlapping cells g
  = (inr (List.filter (cell_overlaps_manhattan polygon) cells), g).
Proof.
  intros Hloaded. induction cells as [|cell cells IH]; [reflexivity|].
  simpl. unfold mbind, G_bind.
  rewrite cell_overlaps_manhattan_first, (get_polygon_loaded g polygon Hloaded).
  cbn [fst snd]. rewrite Hloaded, IH.
  destruct (cell_overlaps_manhattan polygon cell); reflexivity.
Qed.

Lemma keep_overlapping_first g cell cells :
  Global.keep_overlapping (cell :: cells) g
  = (match MANHATTAN_POLYGON (Global._get_manhattan_polygon g).2 with
     | Some polygon => inr (List.filter (cell_overlaps_manhattan polygon) (cell :: cells))
     | None => inl AttributeError
     end, (Global._get_manhattan_polygon g).2).
Proof.
  simpl. unfold mbind, G_bind. rewrite cell_overlaps_manhattan_first.
  destruct (MANHATTAN_POLYGON (Global._get_manhattan_polygon g).2)
    as [polygon|] eqn:Hloaded; [|reflexivity].
  rewrite (keep_overlapping_loaded _ polygon cells Hloaded).
  destruct (cell_overlaps_manhattan polygon cell); reflexivity.
Qed.

Lemma lattice_nonempty bounds n :
  exists cell cells, lattice bounds (S n) = cell :: cells.
Proof.
  pose proof (lattice_length bounds (S n)) as Hlen.
  destruct (lattice bounds (S n)) as [|cell cells]; [discriminate|].
  exists cell, cells. reflexivity.
Qed.

Lemma generate_grid_cells_first bounds grid_size g :
  (0 < grid_size)%nat ->
  Global.generate_grid_cells bounds grid_size g
  = (match MANHATTAN_POLYGON (Global._get_manhattan_polygon g).2 with
     | Some polygon =>
         inr (List.filter (cell_overlaps_manhattan polygon) (lattice bounds grid_size))
     | None => inl AttributeError
     end, (Global._get_manhattan_polygon g).2).
Proof.
  intros Hpos. destruct grid_size as [|n]; [lia|].
  unfold Global.generate_grid_cells.
  destruct (lattice_nonempty bounds n) as (cell & cells & ->).
  apply keep_overlapping_first.
Qed.
End BoundaryFacts.

(** X26. At the first use of the boundary, when the loader returns a
    polygon, grid generation returns what the overlap test gives for
    that polygon on every cell of the lattice, and the loader has been
    called exactly once, although every cell looks the boundary up
    several times. *)
Theorem boundary_is_loaded_once `{Shapely} `{BoundaryLoader} `{MissingGeometry}
    (bounds : Bounds) (grid_size : nat) (g : Globals)
    (polygon : ring) (cells : list GridCell) :
  MANHATTAN_POLYGON g = None ->
  load_manhattan_boundary (boundary_loads g) = LoadPolygon polygon ->
  generate_grid_cells polygon bounds grid_size = Some cells ->
  Global.generate_grid_cells bounds grid_size g
  = (inr cells,
     {| MANHATTAN_POLYGON := Some polygon; boundary_loads := S (boundary_loads g) |}).
Proof.
  intros Hnone Hload Hcells.
  assert (0 < grid_size)%nat as Hpos by (destruct grid_size; [discriminate | lia]).
  rewrite (generate_grid_cells_first bounds grid_size g Hpos).
  rewrite (get_polygon_first_use g Hnone), Hload. cbn [MANHATTAN_POLYGON].
  destruct grid_size as [|n]; [lia|]. injection Hcells as <-. reflexivity.
Qed.

Lemma boundary_is_loaded_once_witness :
  @Global.generate_grid_cells Planar.shapely
    (constant_loader (LoadPolygon (box_polygon sliver_bounds))) shapely_1
    sliver_bounds 2 initial_globals
  = (inr (List.filter (@cell_overlaps_manhattan Planar.shapely (box_polygon sliver_bounds))
                      (lattice sliver_bounds 2)),
     {| MANHATTAN_POLYGON := Some (box_polygon sliver_bounds);
        boundary_loads := S (boundary_loads initial_globals) |}).
Proof.
  apply (@boundary_is_loaded_once Planar.shapely
           (constant_loader (LoadPolygon (box_polygon sliver_bounds))) shapely_1
           sliver_bounds 2 initial_globals (box_polygon sliver_bounds)).
  - reflexivity.
  - reflexivity.
  - reflexivity.
Defined.

(** X27. There is no fallback polygon: when at the first use of the
    boundary the loader raises or returns [None], grid generation
    raises [AttributeError] at the first cell, after that one call of
    the loader, and the global stays unset. *)
Theorem no_fallback_boundary `{Shapely} `{BoundaryLoader} `{MissingGeometry}
    (bounds : Bounds) (grid_size : nat) (g : Globals) :
  (0 < grid_size)%nat ->
  MANHATTAN_POLYGON g = None ->
  (forall polygon, load_manhattan_boundary (boundary_loads g) <> LoadPolygon polygon) ->
  Global.generate_grid_cells bounds grid_size g
  = (inl AttributeError,
     {| MANHATTAN_POLYGON := None; boundary_loads := S (boundary_loads g) |}).
Proof.
  intros Hpos Hnone Hfail.
  rewrite (generate_grid_cells_first bounds grid_size g Hpos).
  rewrite (get_polygon_first_use g Hnone). cbn [MANHATTAN_POLYGON].
  destruct (load_manhattan_boundary (boundary_loads g)) as [error_str| |polygon];
    try reflexivity.
  destruct (Hfail polygon eq_refl).
Qed.

Lemma no_fallback_boundary_witness :
  @Global.generate_grid_cells Planar.shapely
    (constant_loader (LoadRaises "connection refused")) shapely_1
    MANHATTAN_BOUNDS GRID_SIZE initial_globals
  = (inl AttributeError,
     {| MANHATTAN_POLYGON := None;
        boundary_loads := S (boundary_loads initial_globals) |}).
Proof.
  apply (@no_fallback_boundary Planar.shapely
           (constant_loader (LoadRaises "connection refused")) shapely_1
           MANHATTAN_BOUNDS GRID_SIZE initial_globals).
  - unfold GRID_SIZE. lia.
  - reflexivity.
  - discriminate.
Defined.

(** X28. Once the global holds a polygon the loader is not called
    again: grid generation leaves the module state as it is and returns
    what the overlap test gives for the polygon held. *)
Theorem loaded_boundary_is_reused `{Shapely} `{BoundaryLoader} `{MissingGeometry}
    (bounds : Bounds) (grid_size : nat) (g : Globals)
    (polygon : ring) (cells : list GridCell) :
  MANHATTAN_POLYGON g = Some polygon ->
  generate_grid_cells polygon bounds grid_size = Some cells ->
  Global.generate_grid_cells bounds grid_size g = (inr cells, g).
Proof.
  intros Hloaded Hcells.
  destruct grid_size as [|n]; [discriminate|].
  assert (cells = List.filter (cell_overlaps_manhattan polygon) (lattice bounds (S n)))
    as -> by (unfold generate_grid_cells in Hcells; congruence).
  unfold Global.generate_grid_cells.
  apply (keep_overlapping_loaded g polygon _ Hloaded).
Qed.

Lemma loaded_boundary_is_reused_witness :
  @Global.generate_grid_cells Planar.shapely
    (constant_loader (LoadRaises "connection refused")) shapely_1
    sliver_bounds 2
    {| MANHATTAN_POLYGON := Some sliver; boundary_loads := 1 |}
  = (inr (List.filter (@cell_overlaps_manhattan Planar.shapely sliver)
                      (lattice sliver_bounds 2)),
     {| MANHATTAN_POLYGON := Some sliver; boundary_loads := 1 |}).
Proof.
  apply (@loaded_boundary_is_reused Planar.shapely
           (constant_loader (LoadRaises "connection refused")) shapely_1
           sliver_bounds 2
           {| MANHATTAN_POLYGON := Some sliver; boundary_loads := 1 |} sliver).
  - reflexivity.
  - reflexivity.
Defined.

(** * The output file and the map reader *)

Lemma convert_place_location place :
  _convert_place_to_dict place !! "location" = lat_lng_dict <$> p_location place /\
  _convert_place_to_dict place !! "displayName"
  = localized_text_dict <$> p_display_name place.
Proof.
  unfold _convert_place_to_dict. cbv zeta. split.
  - rewrite !(set_if_lookup_ne _ _ _ "location") by discriminate.
    rewrite set_if_lookup_eq.
    destruct (p_location place); [reflexivity|].
    rewrite !(set_if_lookup_ne _ _ _ "location") by discriminate. apply lookup_empty.
  - rewrite !(set_if_lookup_ne _ _ _ "displayName") by discriminate.
    rewrite set_if_lookup_eq.
    destruct (p_display_name place); [reflexivity|].
    rewrite !(set_if_lookup_ne _ _ _ "displayName") by discriminate. apply lookup_empty.
Qed.

Lemma location_entry_of_place restaurant place :
  shows_place restaurant place ->
  Visualize.location_entry (JObj restaurant) = inr (place_location place).
Proof.
  intros [Hlocation Hname].
  destruct (convert_place_location place) as [Hl Hn].
  rewrite Hl in Hlocation. rewrite Hn in Hname.
  unfold Visualize.location_entry, Visualize.tested_location, place_location.
  rewrite Hlocation.
  destruct (p_location place) as [location|]; [|reflexivity]. simpl.
  unfold Visualize.method_get. rewrite Hname.
  destruct (p_display_name place) as [name|]; reflexivity.
Qed.

(** X29. What [save_output] writes, [load_restaurants] reads back: a
    list of dictionaries that holds exactly the restaurants of the map,
    as many as the map has entries, which is also the [total_count]
    written. *)
Theorem output_round_trip
    (utcnow : string) (restaurants : gmap string (gmap string json)) (w : World) :
  exists listed output,
    (Visualize.load_restaurants OUTPUT_FILE (save_output utcnow restaurants w).2).1
    = inr (JArr (JObj <$> listed)) /\
    (forall restaurant,
       restaurant ∈ listed <-> exists place_id, restaurants !! place_id = Some restaurant) /\
    length listed = size restaurants /\
    disk (save_output utcnow restaurants w).2 !! OUTPUT_FILE = Some (JsonText (JObj output)) /\
    output !! "total_count" = Some (JInt (Z.of_nat (length listed))).
Proof.
  exists (map_to_list restaurants).*2.
  eexists. split; [|split; [|split; [|split]]].
  - unfold Visualize.load_restaurants, save_output. run_m.
    rewrite lookup_insert_eq. reflexivity.
  - intros restaurant. rewrite list_elem_of_fmap. split.
    + intros ([place_id d] & -> & Hin). exists place_id.
      apply elem_of_map_to_list in Hin. exact Hin.
    + intros (place_id & Hlookup). exists (place_id, restaurant).
      split; [reflexivity|]. apply elem_of_map_to_list. exact Hlookup.
  - rewrite length_fmap. apply length_map_to_list.
  - unfold save_output. run_m. apply lookup_insert_eq.
  - rewrite length_fmap, length_map_to_list. reflexivity.
Qed.

(** X30. The map reader never raises on what the scraper wrote: for
    restaurants that still have the location and the name their places
    were converted with, [extract_locations] returns, in order, the
    coordinates and the name of every place that has a location, with
    the name [Unknown] for a place without a display name. *)
Theorem extract_locations_of_places
    (restaurants : list (gmap string json)) (places : list Place) :
  Forall2 shows_place restaurants places ->
  Visualize.extract_locations (JObj <$> restaurants) = inr (omap place_location places).
Proof.
  induction 1 as [|restaurant place restaurants places Hshows _ IH]; [reflexivity|].
  rewrite fmap_cons. cbn [Visualize.extract_locations].
  rewrite (location_entry_of_place restaurant place Hshows), IH.
  change (omap place_location (place :: places))
    with (match place_location place with
          | Some location => location :: omap place_location places
          | None => omap place_location places
          end).
  reflexivity.
Qed.

Lemma extract_locations_of_places_witness :
  Visualize.extract_locations
    (JObj <$> [_convert_place_to_dict located_place; _convert_place_to_dict sample_place])
  = inr (omap place_location [located_place; sample_place]).
Proof.
  apply (extract_locations_of_places
           [_convert_place_to_dict located_place; _convert_place_to_dict sample_place]
           [located_place; sample_place]).
  constructor; [split; reflexivity|].
  constructor; [split; reflexivity|]. constructor.
Defined.

(** * Cache hits and reruns *)






Section RerunOrder.
Context `{Runtime} `{Provider}.










End RerunOrder.










